(** * notion-mcp: a shallow embedding of [server.py]

    The server exposes seven Notion operations as MCP tools.  Python values
    are embedded as the inductive [pyval]; a handler is a computation in a
    small monad that logs the HTTP requests it issues and either returns a
    value or raises; the network is a function from the request to what the
    client observes.  The behaviour of the Python runtime and of the [json]
    and [httpx] libraries that the program calls is written out next to the
    place where the program calls it. *)

From Stdlib Require Import String Ascii.
From Stdlib Require Import List ZArith NArith Lia Bool.
From Stdlib Require Import Floats.SpecFloat DecimalN DecimalPos.
Import ListNotations.

Set Implicit Arguments.
Set Warnings "-register-all".

(** ** Python strings: sequences of code points *)

Definition char := N.
Definition str := list char.

(** The code points of an ASCII literal of the source. *)
Definition lit (s : String.string) : str :=
  map Ascii.N_of_ascii (String.list_ascii_of_string s).
Arguments lit s%_string_scope.

Fixpoint str_eqb (a b : str) : bool :=
  match a, b with
  | [], [] => true
  | x :: a', y :: b' => N.eqb x y && str_eqb a' b'
  | _, _ => false
  end.

Definition str_empty (s : str) : bool :=
  match s with [] => true | _ => false end.

(** [prefix p s]: [s] with the prefix [p] removed, as [s[idx:idx+n] == p]
    followed by [idx + n]. *)
Fixpoint strip_prefix (p s : str) : option str :=
  match p, s with
  | [], _ => Some s
  | x :: p', y :: s' => if N.eqb x y then strip_prefix p' s' else None
  | _ :: _, [] => None
  end.

(** [needle in haystack] for Python strings. *)
Fixpoint contains (needle haystack : str) : bool :=
  match strip_prefix needle haystack with
  | Some _ => true
  | None =>
      match haystack with
      | [] => false
      | _ :: rest => contains needle rest
      end
  end.

(** ** Python values that travel as JSON

    [int] is unbounded; [float] is IEEE binary64, kept as its sign, mantissa
    and exponent; a [dict] keeps its insertion order and its keys are
    strings. *)

Inductive pyval :=
| PNone
| PBool (b : bool)
| PInt (z : Z)
| PFloat (f : spec_float)
| PStr (s : str)
| PList (items : list pyval)
| PDict (entries : list (str * pyval)).

Definition dict := list (str * pyval).

(** Truth value testing ([if x:]). *)
Definition truthy (v : pyval) : bool :=
  match v with
  | PNone => false
  | PBool b => b
  | PInt z => negb (Z.eqb z 0)
  | PFloat (S754_zero _) => false
  | PFloat _ => true
  | PStr s => negb (str_empty s)
  | PList l => match l with [] => false | _ => true end
  | PDict d => match d with [] => false | _ => true end
  end.

(** [d.get(k)] as an option, the first (and in a Python dict the only)
    entry under the key. *)
Fixpoint dict_lookup (d : dict) (k : str) : option pyval :=
  match d with
  | [] => None
  | (k', v) :: rest => if str_eqb k' k then Some v else dict_lookup rest k
  end.

(** [d.get(k, default)] and [d.get(k)], whose default is [None]. *)
Definition dict_get_default (d : dict) (k : str) (default : pyval) : pyval :=
  match dict_lookup d k with Some v => v | None => default end.

Definition dict_get (d : dict) (k : str) : pyval := dict_get_default d k PNone.

(** [d[k] = v]: an existing key keeps its position, a new key goes last. *)
Fixpoint dict_set (d : dict) (k : str) (v : pyval) : dict :=
  match d with
  | [] => [(k, v)]
  | (k', v') :: rest =>
      if str_eqb k' k then (k', v) :: rest else (k', v') :: dict_set rest k v
  end.

(** [d.update(other)] for a mapping [other], and [dict(pairs)]. *)
Definition dict_update (d other : dict) : dict :=
  fold_left (fun acc kv => dict_set acc (fst kv) (snd kv)) other d.

Definition dict_of_pairs (pairs : list (str * pyval)) : dict :=
  dict_update [] pairs.

Definition has_key (d : dict) (k : str) : bool :=
  match dict_lookup d k with Some _ => true | None => false end.

(** ** Decimal and hexadecimal digits *)

Fixpoint uint_chars (u : Decimal.uint) : str :=
  match u with
  | Decimal.Nil => []
  | Decimal.D0 u => 48%N :: uint_chars u
  | Decimal.D1 u => 49%N :: uint_chars u
  | Decimal.D2 u => 50%N :: uint_chars u
  | Decimal.D3 u => 51%N :: uint_chars u
  | Decimal.D4 u => 52%N :: uint_chars u
  | Decimal.D5 u => 53%N :: uint_chars u
  | Decimal.D6 u => 54%N :: uint_chars u
  | Decimal.D7 u => 55%N :: uint_chars u
  | Decimal.D8 u => 56%N :: uint_chars u
  | Decimal.D9 u => 57%N :: uint_chars u
  end.

(** [int.__repr__]. *)
Definition intstr (z : Z) : str :=
  match z with
  | Z0 => lit "0"
  | Zpos p => uint_chars (Pos.to_uint p)
  | Zneg p => 45%N :: uint_chars (Pos.to_uint p)
  end.

Definition is_digit (c : char) : bool := (48 <=? c)%N && (c <=? 57)%N.

Definition digit_cons (c : char) (u : Decimal.uint) : Decimal.uint :=
  match (c - 48)%N with
  | 0%N => Decimal.D0 u
  | 1%N => Decimal.D1 u
  | 2%N => Decimal.D2 u
  | 3%N => Decimal.D3 u
  | 4%N => Decimal.D4 u
  | 5%N => Decimal.D5 u
  | 6%N => Decimal.D6 u
  | 7%N => Decimal.D7 u
  | 8%N => Decimal.D8 u
  | _ => Decimal.D9 u
  end.

Definition chars_uint (s : str) : Decimal.uint :=
  fold_right digit_cons Decimal.Nil s.

(** [int(s)] for the [integer] group of a number literal: an optional
    minus sign and decimal digits. *)
Definition parse_int (s : str) : Z :=
  match strip_prefix [45%N] s with
  | Some ds => Z.opp (Z.of_N (N.of_uint (chars_uint ds)))
  | None => Z.of_N (N.of_uint (chars_uint s))
  end.

(** ** What the program takes from the Python runtime

    Four functions of CPython are used by the program through [json],
    f-strings and [dict.update] and are not fixed here: the shortest decimal
    representation of a finite float and its inverse, the [repr] that an
    f-string applies to a float, list or dict, the text of a
    [JSONDecodeError], and [dict.update] given a sequence instead of a
    mapping.  Nothing is assumed about them except where a theorem says so. *)

(** What the program reads of an [httpx.Response]: [headers.get location]
    is [location], [text] is the body.  [response.json()] hands the bytes of
    the body to [json.loads], which guesses their encoding before it scans
    them; the answers modelled are those whose bytes are the UTF-8 encoding
    of the text [text] and are read as such: a text without a byte order
    mark at its head and without a NUL among its first four characters.  A
    body that is no such text (bytes that are not UTF-8, on which
    [json.loads] raises [UnicodeDecodeError], or a text behind a mark, which
    [json.loads] drops) is outside the model. *)
Record response := {
  status_code : Z;
  reason_phrase : str;
  url : str;
  location : option str;
  text : str
}.

(** The subclasses of [httpx.TransportError]. *)
Inductive transport_error :=
| ConnectTimeout | ReadTimeout | WriteTimeout | PoolTimeout
| ConnectError | ReadError | WriteError | CloseError
| ProxyError | UnsupportedProtocol
| LocalProtocolError | RemoteProtocolError.

(** The exceptions an invocation can raise; all of them derive from
    [Exception].  [HTTPStatusError] keeps the response it was raised for,
    [OtherError] is any other exception class raised inside the client,
    under its class name. *)
Inductive exn :=
| KeyError (key : str)
| ValueError (msg : str)
| TypeError (msg : str)
| JSONDecodeError (msg : str)
| HTTPStatusError (msg : str) (resp : response)
| TransportError (cls : transport_error) (msg : str)
| OtherError (cls : str) (msg : str).

Class Runtime := {
  (** [float.__repr__] of a finite float *)
  float_repr : spec_float -> str;
  (** [float(s)] for a number literal [s] *)
  float_of_literal : str -> spec_float;
  (** [format(v, '')] for a float, list or dict inside an f-string *)
  repr_of : pyval -> str;
  (** [str(e)] of the [JSONDecodeError] raised on an undecodable document *)
  decode_error_text : str -> str;
  (** [d.update(seq)] for a list [seq]: the merged dict, or the [TypeError]
      or [ValueError] raised on an element that is not a pair *)
  update_from_sequence : dict -> list pyval -> exn + dict
}.

(** ** [json.dumps(obj, indent=2)]

    [json/encoder.py]: [ensure_ascii] is on, the item separator is a comma
    followed by a newline and the indentation, the key separator is a colon
    and a space. *)

Section JSON.
Context {RT : Runtime}.
Local Open Scope N_scope.

Definition hex_digit (d : N) : char := if d <? 10 then 48 + d else 87 + d.

(** ['\\u{0:04x}'.format(n)] *)
Definition u_escape (n : N) : str :=
  [92; 117; hex_digit (n / 4096 mod 16); hex_digit (n / 256 mod 16);
   hex_digit (n / 16 mod 16); hex_digit (n mod 16)].

(** [ESCAPE_ASCII]: a backslash, a double quote, or anything outside
    [' '..'~']. *)
Definition ESCAPE_ASCII (c : char) : bool :=
  (c =? 92) || (c =? 34) || negb ((32 <=? c) && (c <=? 126)).

(** [ESCAPE_DCT] without the entries that [setdefault] adds for the other
    control characters, which are the [u_escape] of their code point. *)
Definition ESCAPE_DCT (c : char) : option str :=
  if c =? 92 then Some [92; 92]
  else if c =? 34 then Some [92; 34]
  else if c =? 8 then Some [92; 98]
  else if c =? 12 then Some [92; 102]
  else if c =? 10 then Some [92; 110]
  else if c =? 13 then Some [92; 114]
  else if c =? 9 then Some [92; 116]
  else None.

Definition replace (c : char) : str :=
  match ESCAPE_DCT c with
  | Some e => e
  | None =>
      if c <? 65536 then u_escape c
      else
        let n := c - 65536 in
        let s1 := N.lor 55296 (N.land (N.shiftr n 10) 1023) in
        let s2 := N.lor 56320 (N.land n 1023) in
        u_escape s1 ++ u_escape s2
  end.

Definition encode_char (c : char) : str :=
  if ESCAPE_ASCII c then replace c else [c].

Definition encode_basestring_ascii (s : str) : str :=
  34 :: flat_map encode_char s ++ [34].

Definition floatstr (f : spec_float) : str :=
  match f with
  | S754_nan => lit "NaN"
  | S754_infinity false => lit "Infinity"
  | S754_infinity true => lit "-Infinity"
  | _ => float_repr f
  end.

Definition newline_indent (level : nat) : str :=
  10 :: concat (repeat (lit "  ") level).

Definition item_separator (level : nat) : str := 44 :: newline_indent level.

Definition key_separator : str := lit ": ".

(** [_iterencode_list] and [_iterencode_dict], over the encoder [enc] of
    the elements. *)
Fixpoint list_chunks (enc : pyval -> str) (separator : str)
    (lst : list pyval) (buf : str) : str :=
  match lst with
  | [] => []
  | value :: lst' =>
      buf ++ enc value ++ list_chunks enc separator lst' separator
  end.

Definition iterencode_list (enc : pyval -> nat -> str) (lst : list pyval)
    (level : nat) : str :=
  match lst with
  | [] => lit "[]"
  | _ =>
      list_chunks (fun value => enc value (S level))
        (item_separator (S level)) lst (91 :: newline_indent (S level))
      ++ newline_indent level ++ [93]
  end.

Fixpoint dict_chunks (enc : pyval -> str) (separator : str)
    (items : list (str * pyval)) (first : bool) : str :=
  match items with
  | [] => []
  | (key, value) :: items' =>
      (if first then [] else separator)
        ++ encode_basestring_ascii key ++ key_separator
        ++ enc value ++ dict_chunks enc separator items' false
  end.

Definition iterencode_dict (enc : pyval -> nat -> str)
    (dct : list (str * pyval)) (level : nat) : str :=
  match dct with
  | [] => lit "{}"
  | _ =>
      123 :: newline_indent (S level)
      ++ dict_chunks (fun value => enc value (S level))
           (item_separator (S level)) dct true
      ++ newline_indent level ++ [125]
  end.

Fixpoint iterencode (o : pyval) (level : nat) : str :=
  match o with
  | PStr s => encode_basestring_ascii s
  | PNone => lit "null"
  | PBool true => lit "true"
  | PBool false => lit "false"
  | PInt z => intstr z
  | PFloat f => floatstr f
  | PList lst => iterencode_list iterencode lst level
  | PDict dct => iterencode_dict iterencode dct level
  end.

Definition dumps (obj : pyval) : str := iterencode obj 0.

(** ** [json.loads]

    [json/decoder.py] and [json/scanner.py], reading the document from the
    front instead of by index.  Digits are the ASCII digits, as in the
    accelerated scanner that CPython runs.  A loop of the source is a
    recursion on [fuel], which [loads] sets to more than the length of the
    document; every iteration consumes a character. *)

Definition is_ws (c : char) : bool :=
  (c =? 32) || (c =? 9) || (c =? 10) || (c =? 13).

Fixpoint skip_ws (s : str) : str :=
  match s with
  | c :: s' => if is_ws c then skip_ws s' else s
  | [] => []
  end.

Definition hexval (c : char) : option N :=
  if (48 <=? c) && (c <=? 57) then Some (c - 48)
  else if (97 <=? c) && (c <=? 102) then Some (c - 87)
  else if (65 <=? c) && (c <=? 70) then Some (c - 55)
  else None.

(** [_decode_uXXXX], on the text after the [u]. *)
Definition decode_uXXXX (s : str) : option (N * str) :=
  match s with
  | a :: b :: c :: d :: rest =>
      match hexval a, hexval b, hexval c, hexval d with
      | Some x1, Some x2, Some x3, Some x4 =>
          Some (((x1 * 16 + x2) * 16 + x3) * 16 + x4, rest)
      | _, _, _, _ => None
      end
  | _ => None
  end.

(** [BACKSLASH] *)
Definition BACKSLASH (esc : char) : option char :=
  if esc =? 34 then Some 34
  else if esc =? 92 then Some 92
  else if esc =? 47 then Some 47
  else if esc =? 98 then Some 8
  else if esc =? 102 then Some 12
  else if esc =? 110 then Some 10
  else if esc =? 114 then Some 13
  else if esc =? 116 then Some 9
  else None.

Definition is_high_surrogate (c : N) : bool := (55296 <=? c) && (c <=? 56319).
Definition is_low_surrogate (c : N) : bool := (56320 <=? c) && (c <=? 57343).

(** [py_scanstring] with [strict=True], from the character after the
    opening quote: the decoded string and the text after the closing
    quote. *)
Fixpoint scanstring_loop (fuel : nat) (s : str) : option (str * str) :=
  match fuel with
  | O => None
  | S fuel =>
      match s with
      | [] => None
      | c :: s1 =>
          if c =? 34 then Some ([], s1)
          else if c =? 92 then
            match s1 with
            | [] => None
            | esc :: s2 =>
                if negb (esc =? 117) then
                  match BACKSLASH esc with
                  | None => None
                  | Some ch =>
                      match scanstring_loop fuel s2 with
                      | Some (chunks, s') => Some (ch :: chunks, s')
                      | None => None
                      end
                  end
                else
                  match decode_uXXXX s2 with
                  | None => None
                  | Some (uni, s3) =>
                      let pair :=
                        if is_high_surrogate uni then
                          match strip_prefix [92; 117] s3 with
                          | Some s4 =>
                              match decode_uXXXX s4 with
                              | None => None
                              | Some (uni2, s5) =>
                                  if is_low_surrogate uni2 then
                                    Some (65536 +
                                            N.lor (N.shiftl (uni - 55296) 10)
                                                  (uni2 - 56320), s5)
                                  else Some (uni, s3)
                              end
                          | None => Some (uni, s3)
                          end
                        else Some (uni, s3) in
                      match pair with
                      | None => None
                      | Some (ch, s') =>
                          match scanstring_loop fuel s' with
                          | Some (chunks, s'') => Some (ch :: chunks, s'')
                          | None => None
                          end
                      end
                  end
            end
          else if c <? 32 then None
          else
            match scanstring_loop fuel s1 with
            | Some (chunks, s') => Some (c :: chunks, s')
            | None => None
            end
      end
  end.

Definition scanstring (s : str) : option (str * str) :=
  scanstring_loop (length s) s.

(** The longest run of digits at the front. *)
Fixpoint take_digits (s : str) : str * str :=
  match s with
  | c :: s' =>
      if is_digit c then let (ds, rest) := take_digits s' in (c :: ds, rest)
      else ([], s)
  | [] => ([], [])
  end.

(** [NUMBER_RE.match]: the groups [integer], [frac], [exp] (an unmatched
    group is empty) and the text after the match. *)
Definition match_frac (s : str) : str * str :=
  match s with
  | c :: t =>
      if c =? 46 then
        match take_digits t with
        | ([], _) => ([], s)
        | (ds, rest) => (c :: ds, rest)
        end
      else ([], s)
  | [] => ([], s)
  end.

Definition match_exp (s : str) : str * str :=
  match s with
  | e :: t =>
      if (e =? 101) || (e =? 69) then
        let (sign, t1) :=
          match t with
          | c :: t' => if (c =? 45) || (c =? 43) then ([c], t') else ([], t)
          | [] => ([], t)
          end in
        match take_digits t1 with
        | ([], _) => ([], s)
        | (ds, rest) => (e :: sign ++ ds, rest)
        end
      else ([], s)
  | [] => ([], s)
  end.

Definition match_integer (s : str) : option (str * str) :=
  let (sign, s1) :=
    match s with
    | c :: t => if c =? 45 then ([c], t) else ([], s)
    | [] => ([], s)
    end in
  match s1 with
  | d :: s2 =>
      if d =? 48 then Some (sign ++ [d], s2)
      else if is_digit d then
        let (ds, rest) := take_digits s2 in Some (sign ++ d :: ds, rest)
      else None
  | [] => None
  end.

Definition match_number (s : str) : option (str * str * str * str) :=
  match match_integer s with
  | None => None
  | Some (integer, s1) =>
      let (frac, s2) := match_frac s1 in
      let (exp, s3) := match_exp s2 in
      Some (integer, frac, exp, s3)
  end.

Definition scan_constant (s : str) : option (pyval * str) :=
  match strip_prefix (lit "NaN") s with
  | Some rest => Some (PFloat S754_nan, rest)
  | None =>
      match strip_prefix (lit "Infinity") s with
      | Some rest => Some (PFloat (S754_infinity false), rest)
      | None =>
          match strip_prefix (lit "-Infinity") s with
          | Some rest => Some (PFloat (S754_infinity true), rest)
          | None => None
          end
      end
  end.

Definition scan_number (s : str) : option (pyval * str) :=
  match match_number s with
  | Some (integer, frac, exp, rest) =>
      if str_empty frac && str_empty exp then Some (PInt (parse_int integer), rest)
      else Some (PFloat (float_of_literal (integer ++ frac ++ exp)), rest)
  | None => scan_constant s
  end.

(** [_scan_once], [JSONArray] and [JSONObject]; the two loops are
    [array_loop] and [object_loop]. *)
Fixpoint scan_once (fuel : nat) (s : str) : option (pyval * str) :=
  match fuel with
  | O => None
  | S fuel =>
      match s with
      | [] => None
      | nextchar :: s1 =>
          if nextchar =? 34 then
            match scanstring s1 with
            | Some (v, rest) => Some (PStr v, rest)
            | None => None
            end
          else if nextchar =? 123 then
            match skip_ws s1 with
            | c :: rest =>
                if c =? 125 then Some (PDict [], rest)
                else if c =? 34 then object_loop fuel rest []
                else None
            | [] => None
            end
          else if nextchar =? 91 then
            match skip_ws s1 with
            | c :: rest =>
                if c =? 93 then Some (PList [], rest)
                else array_loop fuel (c :: rest) []
            | [] => None
            end
          else
            match strip_prefix (lit "null") s with
            | Some rest => Some (PNone, rest)
            | None =>
            match strip_prefix (lit "true") s with
            | Some rest => Some (PBool true, rest)
            | None =>
            match strip_prefix (lit "false") s with
            | Some rest => Some (PBool false, rest)
            | None => scan_number s
            end end end
      end
  end

with array_loop (fuel : nat) (s : str) (values : list pyval)
  : option (pyval * str) :=
  match fuel with
  | O => None
  | S fuel =>
      match scan_once fuel s with
      | None => None
      | Some (value, s1) =>
          let values := values ++ [value] in
          match skip_ws s1 with
          | c :: s2 =>
              if c =? 93 then Some (PList values, s2)
              else if c =? 44 then array_loop fuel (skip_ws s2) values
              else None
          | [] => None
          end
      end
  end

with object_loop (fuel : nat) (s : str) (pairs : list (str * pyval))
  : option (pyval * str) :=
  match fuel with
  | O => None
  | S fuel =>
      match scanstring s with
      | None => None
      | Some (key, s1) =>
          match strip_prefix [58] (skip_ws s1) with
          | Some s2 =>
              match scan_once fuel (skip_ws s2) with
              | None => None
              | Some (value, s3) =>
                  let pairs := pairs ++ [(key, value)] in
                  match skip_ws s3 with
                  | c :: s4 =>
                      if c =? 125 then Some (PDict (dict_of_pairs pairs), s4)
                      else if c =? 44 then
                        match strip_prefix [34] (skip_ws s4) with
                        | Some s5 => object_loop fuel s5 pairs
                        | None => None
                        end
                      else None
                  | [] => None
                  end
              end
          | None => None
          end
      end
  end.

(** [JSONDecoder.decode] *)
Definition loads (s : str) : option pyval :=
  match scan_once (S (length s)) (skip_ws s) with
  | Some (obj, rest) =>
      match skip_ws rest with
      | [] => Some obj
      | _ => None
      end
  | None => None
  end.

End JSON.

(** ** Exceptions as the handler sees them *)

Definition transport_error_name (c : transport_error) : str :=
  match c with
  | ConnectTimeout => lit "ConnectTimeout"
  | ReadTimeout => lit "ReadTimeout"
  | WriteTimeout => lit "WriteTimeout"
  | PoolTimeout => lit "PoolTimeout"
  | ConnectError => lit "ConnectError"
  | ReadError => lit "ReadError"
  | WriteError => lit "WriteError"
  | CloseError => lit "CloseError"
  | ProxyError => lit "ProxyError"
  | UnsupportedProtocol => lit "UnsupportedProtocol"
  | LocalProtocolError => lit "LocalProtocolError"
  | RemoteProtocolError => lit "RemoteProtocolError"
  end.

(** [type(e).__name__] *)
Definition type_name (e : exn) : str :=
  match e with
  | KeyError _ => lit "KeyError"
  | ValueError _ => lit "ValueError"
  | TypeError _ => lit "TypeError"
  | JSONDecodeError _ => lit "JSONDecodeError"
  | HTTPStatusError _ _ => lit "HTTPStatusError"
  | TransportError c _ => transport_error_name c
  | OtherError c _ => c
  end.

(** [str(e)]; a [KeyError] shows the [repr] of its key, which for the keys
    of this program is the key between single quotes. *)
Definition exn_str (e : exn) : str :=
  match e with
  | KeyError k => 39%N :: k ++ [39%N]
  | ValueError m | TypeError m | JSONDecodeError m => m
  | HTTPStatusError m _ => m
  | TransportError _ m => m
  | OtherError _ m => m
  end.

(** ** Requests and the network *)

Inductive http_method := GET | POST | PATCH.

Record request := {
  rq_method : http_method;
  rq_url : str;
  rq_headers : list (str * str);
  rq_timeout : Z;
  rq_json : option pyval
}.

(** What awaiting a call of the client yields: a response, a failure of the
    transport, or another exception raised while the request was built or
    sent. *)
Inductive http_outcome :=
| Responded (r : response)
| NetworkFailure (cls : transport_error) (msg : str)
| ClientFailure (cls : str) (msg : str).

(** ** Computations that issue requests and may raise *)

Definition M (A : Type) : Type := list request * (exn + A).

Definition ret {A} (a : A) : M A := ([], inr a).

Definition raise {A} (e : exn) : M A := ([], inl e).

Definition bind {A B} (m : M A) (k : A -> M B) : M B :=
  match m with
  | (sent, inl e) => (sent, inl e)
  | (sent, inr a) => let (sent', r) := k a in (sent ++ sent', r)
  end.

Notation "x <- m ;; k" := (bind m (fun x => k))
  (at level 61, m at next level, right associativity).
Notation "m ;;; k" := (bind m (fun _ => k))
  (at level 61, right associativity).

(** [d[k]] *)
Definition subscript (d : dict) (k : str) : M pyval :=
  match dict_lookup d k with
  | Some v => ret v
  | None => raise (KeyError k)
  end.

(** ** The Notion client *)

Definition NOTION_VERSION : str := lit "2022-06-28".
Definition NOTION_API_BASE : str := lit "https://api.notion.com/v1".

Record NotionMCPServer := {
  token : str;
  headers : list (str * str)
}.

Definition NotionMCPServer_init (token : str) : NotionMCPServer :=
  {| token := token;
     headers := [ (lit "Authorization", lit "Bearer " ++ token);
                  (lit "Notion-Version", NOTION_VERSION);
                  (lit "Content-Type", lit "application/json") ] |}.

Section Server.
Context {RT : Runtime}.
Variable network : request -> http_outcome.

(** A value interpolated in an f-string. *)
Definition format_value (v : pyval) : str :=
  match v with
  | PStr s => s
  | PNone => lit "None"
  | PBool true => lit "True"
  | PBool false => lit "False"
  | PInt z => intstr z
  | _ => repr_of v
  end.

(** [await self.client.request(method, url, json=json)]: the client was
    built with [headers=self.headers] and [timeout=30.0]. *)
Definition client_request (self : NotionMCPServer) (method : http_method)
    (url : str) (json : option pyval) : M response :=
  let rq := {| rq_method := method; rq_url := url;
               rq_headers := headers self; rq_timeout := 30;
               rq_json := json |} in
  ([rq],
   match network rq with
   | Responded r => inr r
   | NetworkFailure c m => inl (TransportError c m)
   | ClientFailure c m => inl (OtherError c m)
   end).

(** [httpx.Response.is_success], [has_redirect_location] and
    [raise_for_status]. *)
Definition is_success (r : response) : bool :=
  (200 <=? status_code r)%Z && (status_code r <=? 299)%Z.

Definition has_redirect_location (r : response) : bool :=
  let c := status_code r in
  ((c =? 301) || (c =? 302) || (c =? 303) || (c =? 307) || (c =? 308))%Z
  && match location r with Some _ => true | None => false end.

Definition error_type (r : response) : str :=
  let status_class := (status_code r / 100)%Z in
  if (status_class =? 1)%Z then lit "Informational response"
  else if (status_class =? 3)%Z then lit "Redirect response"
  else if (status_class =? 4)%Z then lit "Client error"
  else if (status_class =? 5)%Z then lit "Server error"
  else lit "Invalid status code".

Definition status_message (r : response) : str :=
  error_type r ++ lit " '" ++ intstr (status_code r) ++ lit " "
    ++ reason_phrase r ++ lit "' for url '" ++ url r ++ lit "'" ++ [10%N]
    ++ (if has_redirect_location r then
          lit "Redirect location: '"
            ++ match location r with Some l => l | None => [] end
            ++ lit "'" ++ [10%N]
        else [])
    ++ lit "For more information check: https://developer.mozilla.org/en-US/docs/Web/HTTP/Status/"
    ++ intstr (status_code r).

Definition raise_for_status (r : response) : M response :=
  if is_success r then ret r
  else raise (HTTPStatusError (status_message r) r).

(** [response.json()], on a body that is the text [text r] *)
Definition response_json (r : response) : M pyval :=
  match loads (text r) with
  | Some v => ret v
  | None => raise (JSONDecodeError (decode_error_text (text r)))
  end.

Definition search (self : NotionMCPServer) (query filter_type : pyval)
  : M pyval :=
  let payload : dict := if truthy query then [(lit "query", query)] else [] in
  let payload :=
    if truthy filter_type then
      dict_set payload (lit "filter")
        (PDict [(lit "property", PStr (lit "object"));
                (lit "value", filter_type)])
    else payload in
  response <- client_request self POST (NOTION_API_BASE ++ lit "/search")
                (Some (PDict payload)) ;;
  raise_for_status response ;;;
  response_json response.

Definition get_page (self : NotionMCPServer) (page_id : pyval) : M pyval :=
  response <- client_request self GET
                (NOTION_API_BASE ++ lit "/pages/" ++ format_value page_id)
                None ;;
  raise_for_status response ;;;
  response_json response.

(** [payload[properties].update(properties)]: a mapping is merged; a
    number or [True] is not iterable; the elements of a string are strings
    of length one. *)
Definition properties_update (d : dict) (properties : pyval) : M dict :=
  match properties with
  | PDict other => ret (dict_update d other)
  | PList seq =>
      match update_from_sequence d seq with
      | inr d' => ret d'
      | inl e => raise e
      end
  | PStr _ =>
      raise (ValueError (lit "dictionary update sequence element #0 has length 1; 2 is required"))
  | PBool _ => raise (TypeError (lit "'bool' object is not iterable"))
  | PInt _ => raise (TypeError (lit "'int' object is not iterable"))
  | PFloat _ => raise (TypeError (lit "'float' object is not iterable"))
  | PNone => raise (TypeError (lit "'NoneType' object is not iterable"))
  end.

Definition create_page (self : NotionMCPServer)
    (parent_id title properties : pyval) : M pyval :=
  let generated : dict :=
    [(lit "title",
      PDict [(lit "title",
              PList [PDict [(lit "text",
                             PDict [(lit "content", title)])]])])] in
  props <- (if truthy properties then properties_update generated properties
            else ret generated) ;;
  let payload : dict :=
    [(lit "parent", PDict [(lit "page_id", parent_id)]);
     (lit "properties", PDict props)] in
  response <- client_request self POST (NOTION_API_BASE ++ lit "/pages")
                (Some (PDict payload)) ;;
  raise_for_status response ;;;
  response_json response.

Definition update_page (self : NotionMCPServer) (page_id properties : pyval)
  : M pyval :=
  let payload : dict := [(lit "properties", properties)] in
  response <- client_request self PATCH
                (NOTION_API_BASE ++ lit "/pages/" ++ format_value page_id)
                (Some (PDict payload)) ;;
  raise_for_status response ;;;
  response_json response.

Definition query_database (self : NotionMCPServer)
    (database_id filter_obj sorts : pyval) : M pyval :=
  let payload : dict := [] in
  let payload :=
    if truthy filter_obj then dict_set payload (lit "filter") filter_obj
    else payload in
  let payload :=
    if truthy sorts then dict_set payload (lit "sorts") sorts else payload in
  response <- client_request self POST
                (NOTION_API_BASE ++ lit "/databases/"
                   ++ format_value database_id ++ lit "/query")
                (Some (PDict payload)) ;;
  raise_for_status response ;;;
  response_json response.

Definition get_block_children (self : NotionMCPServer) (block_id : pyval)
  : M pyval :=
  response <- client_request self GET
                (NOTION_API_BASE ++ lit "/blocks/" ++ format_value block_id
                   ++ lit "/children")
                None ;;
  raise_for_status response ;;;
  response_json response.

Definition append_block_children (self : NotionMCPServer)
    (block_id children : pyval) : M pyval :=
  let payload : dict := [(lit "children", children)] in
  response <- client_request self PATCH
                (NOTION_API_BASE ++ lit "/blocks/" ++ format_value block_id
                   ++ lit "/children")
                (Some (PDict payload)) ;;
  raise_for_status response ;;;
  response_json response.

(** ** The tool handlers of [main] *)

Record Tool := {
  name : str;
  description : str;
  inputSchema : pyval
}.

Record TextContent := {
  type : str;
  content_text : str
}.

Definition string_property (description : string) : pyval :=
  PDict [(lit "type", PStr (lit "string"));
         (lit "description", PStr (lit description))].

Definition typed_property (ty description : string) : pyval :=
  PDict [(lit "type", PStr (lit ty));
         (lit "description", PStr (lit description))].

Definition required_list (keys : list string) : pyval :=
  PList (map (fun k => PStr (lit k)) keys).

Definition list_tools : list Tool :=
  [ {| name := lit "search_notion";
       description := lit "Search Notion workspace for pages and databases";
       inputSchema :=
         PDict [(lit "type", PStr (lit "object"));
                (lit "properties",
                 PDict [(lit "query", string_property "Search query");
                        (lit "filter_type",
                         PDict [(lit "type", PStr (lit "string"));
                                (lit "enum",
                                 PList [PStr (lit "page");
                                        PStr (lit "database")]);
                                (lit "description",
                                 PStr (lit "Filter by type (optional)"))])])] |};
    {| name := lit "get_page";
       description := lit "Get a Notion page by ID";
       inputSchema :=
         PDict [(lit "type", PStr (lit "object"));
                (lit "properties",
                 PDict [(lit "page_id", string_property "The Notion page ID")]);
                (lit "required", required_list ["page_id"%string])] |};
    {| name := lit "create_page";
       description := lit "Create a new Notion page";
       inputSchema :=
         PDict [(lit "type", PStr (lit "object"));
                (lit "properties",
                 PDict [(lit "parent_id", string_property "Parent page ID");
                        (lit "title", string_property "Page title");
                        (lit "properties",
                         typed_property "object"
                           "Additional page properties (optional)")]);
                (lit "required",
                 required_list ["parent_id"%string; "title"%string])] |};
    {| name := lit "update_page";
       description := lit "Update a Notion page's properties";
       inputSchema :=
         PDict [(lit "type", PStr (lit "object"));
                (lit "properties",
                 PDict [(lit "page_id",
                         string_property "The page ID to update");
                        (lit "properties",
                         typed_property "object" "Properties to update")]);
                (lit "required",
                 required_list ["page_id"%string; "properties"%string])] |};
    {| name := lit "query_database";
       description := lit "Query a Notion database";
       inputSchema :=
         PDict [(lit "type", PStr (lit "object"));
                (lit "properties",
                 PDict [(lit "database_id",
                         string_property "The database ID to query");
                        (lit "filter",
                         typed_property "object" "Filter object (optional)");
                        (lit "sorts",
                         typed_property "array" "Sort array (optional)")]);
                (lit "required", required_list ["database_id"%string])] |};
    {| name := lit "get_block_children";
       description := lit "Get children blocks of a page or block";
       inputSchema :=
         PDict [(lit "type", PStr (lit "object"));
                (lit "properties",
                 PDict [(lit "block_id",
                         string_property "The block or page ID")]);
                (lit "required", required_list ["block_id"%string])] |};
    {| name := lit "append_blocks";
       description := lit "Append blocks to a page or block";
       inputSchema :=
         PDict [(lit "type", PStr (lit "object"));
                (lit "properties",
                 PDict [(lit "block_id",
                         string_property "The block or page ID to append to");
                        (lit "blocks",
                         typed_property "array"
                           "Array of block objects to append")]);
                (lit "required",
                 required_list ["block_id"%string; "blocks"%string])] |} ].

(** The body of the [try] of [call_tool]: the branch of the tool, with its
    arguments read from left to right. *)
Definition dispatch (notion : NotionMCPServer) (name : str) (arguments : dict)
  : M pyval :=
  if str_eqb name (lit "search_notion") then
    search notion (dict_get_default arguments (lit "query") (PStr []))
                  (dict_get arguments (lit "filter_type"))
  else if str_eqb name (lit "get_page") then
    page_id <- subscript arguments (lit "page_id") ;;
    get_page notion page_id
  else if str_eqb name (lit "create_page") then
    parent_id <- subscript arguments (lit "parent_id") ;;
    title <- subscript arguments (lit "title") ;;
    create_page notion parent_id title (dict_get arguments (lit "properties"))
  else if str_eqb name (lit "update_page") then
    page_id <- subscript arguments (lit "page_id") ;;
    properties <- subscript arguments (lit "properties") ;;
    update_page notion page_id properties
  else if str_eqb name (lit "query_database") then
    database_id <- subscript arguments (lit "database_id") ;;
    query_database notion database_id (dict_get arguments (lit "filter"))
                   (dict_get arguments (lit "sorts"))
  else if str_eqb name (lit "get_block_children") then
    block_id <- subscript arguments (lit "block_id") ;;
    get_block_children notion block_id
  else if str_eqb name (lit "append_blocks") then
    block_id <- subscript arguments (lit "block_id") ;;
    children <- subscript arguments (lit "blocks") ;;
    append_block_children notion block_id children
  else raise (ValueError (lit "Unknown tool: " ++ name)).

Definition text_content (t : str) : TextContent :=
  {| type := lit "text"; content_text := t |}.

(** The failure Result: the object that the [except] clause serialises. *)
Definition failure (e : exn) : pyval :=
  PDict [(lit "error", PStr (exn_str e)); (lit "type", PStr (type_name e))].

(** [call_tool]: the requests issued and the list returned. *)
Definition call_tool (notion : NotionMCPServer) (name : str) (arguments : dict)
  : list request * list TextContent :=
  match dispatch notion name arguments with
  | (sent, inr result) => (sent, [text_content (dumps result)])
  | (sent, inl e) => (sent, [text_content (dumps (failure e))])
  end.

(** ** Startup

    [main] up to the point where the server runs: either the process has
    exited, or the client exists and the two handlers are registered. *)

Inductive process :=
| Exited (status : Z) (stderr : str)
| Serving (notion : NotionMCPServer).

Definition main (getenv : str -> option str) : process :=
  match getenv (lit "NOTION_TOKEN") with
  | None =>
      Exited 1 (lit "Error: NOTION_TOKEN environment variable not set"
                  ++ [10%N])
  | Some token =>
      if str_empty token then
        Exited 1 (lit "Error: NOTION_TOKEN environment variable not set"
                    ++ [10%N])
      else Serving (NotionMCPServer_init token)
  end.

(** The catalog a client of the process can obtain. *)
Definition published_tools (p : process) : option (list Tool) :=
  match p with
  | Exited _ _ => None
  | Serving _ => Some list_tools
  end.

(** The requests an invocation on the process issues. *)
Definition invoke (p : process) (name : str) (arguments : dict)
  : option (list request * list TextContent) :=
  match p with
  | Exited _ _ => None
  | Serving notion => Some (call_tool notion name arguments)
  end.

End Server.

(** ** A runtime to evaluate the model with

    It agrees with CPython on the floats [0.0], [-0.0], [1.5] and [-1.5], on
    the text of the error for an empty document and on a sequence whose
    first element is a number; elsewhere it is a placeholder. *)

Definition sample_float_repr (f : spec_float) : str :=
  match f with
  | S754_zero true => lit "-0.0"
  | S754_finite false 3 (-1) => lit "1.5"
  | S754_finite true 3 (-1) => lit "-1.5"
  | _ => lit "0.0"
  end.

Definition sample_float_of_literal (s : str) : spec_float :=
  if str_eqb s (lit "1.5") then S754_finite false 3 (-1)
  else if str_eqb s (lit "-1.5") then S754_finite true 3 (-1)
  else if str_eqb s (lit "-0.0") then S754_zero true
  else S754_zero false.

#[export] Instance sample_runtime : Runtime := {|
  float_repr := sample_float_repr;
  float_of_literal := sample_float_of_literal;
  repr_of := fun _ => lit "[]";
  decode_error_text := fun _ => lit "Expecting value: line 1 column 1 (char 0)";
  update_from_sequence := fun _ _ =>
    inl (TypeError (lit "cannot convert dictionary update sequence element #0 to a sequence"))
|}.

(** A network on which every request is answered with the same response. *)
Definition answering (r : response) : request -> http_outcome :=
  fun _ => Responded r.

(** A network on which every request times out. *)
Definition timing_out : request -> http_outcome :=
  fun _ => NetworkFailure ReadTimeout [].

(** ** Vocabulary of the statements *)

Definition str_eq_dec (a b : str) : {a = b} + {a <> b} :=
  list_eq_dec N.eq_dec a b.

Definition tool_names : list str := map name list_tools.

(** The keys under [required] in the input schema of a tool. *)
Definition required_keys (t : Tool) : list str :=
  match inputSchema t with
  | PDict schema =>
      match dict_lookup schema (lit "required") with
      | Some (PList keys) =>
          flat_map (fun k => match k with PStr s => [s] | _ => [] end) keys
      | _ => []
      end
  | _ => []
  end.

(** The first key of [keys] that [arguments] does not hold. *)
Definition first_missing (keys : list str) (arguments : dict) : option str :=
  find (fun k => negb (has_key arguments k)) keys.

(** The request that a method of the client hands to [httpx]. *)
Definition request_of (self : NotionMCPServer) (method : http_method)
    (url : str) (json : option pyval) : request :=
  {| rq_method := method; rq_url := url; rq_headers := headers self;
     rq_timeout := 30; rq_json := json |}.

(** What a method of the client makes of the outcome of its request. *)
Definition settle {RT : Runtime} (o : http_outcome) : exn + pyval :=
  match o with
  | Responded r =>
      if is_success r then
        match loads (text r) with
        | Some v => inr v
        | None => inl (JSONDecodeError (decode_error_text (text r)))
        end
      else inl (HTTPStatusError (status_message r) r)
  | NetworkFailure c m => inl (TransportError c m)
  | ClientFailure c m => inl (OtherError c m)
  end.

(** A path into a value: [v[k]] for a key, [v[i]] for an index. *)
Inductive step := Key (k : str) | Index (i : nat).

Fixpoint path_get (v : pyval) (path : list step) : option pyval :=
  match path with
  | [] => Some v
  | Key k :: path' =>
      match v with
      | PDict d =>
          match dict_lookup d k with
          | Some v' => path_get v' path'
          | None => None
          end
      | _ => None
      end
  | Index i :: path' =>
      match v with
      | PList l =>
          match nth_error l i with
          | Some v' => path_get v' path'
          | None => None
          end
      | _ => None
      end
  end.

(** The keys of a Python dict are distinct. *)
Definition distinct_keys (d : dict) : Prop := NoDup (map fst d).

(** The mapping that [arguments.get(key)] yields when the caller supplied a
    mapping or nothing. *)
Definition supplied_mapping (v : pyval) (m : dict) : Prop :=
  v = PDict m \/ (v = PNone /\ m = []).

(** The [properties] of the body of [create_page] before the merge. *)
Definition generated_properties (title : pyval) : dict :=
  [(lit "title",
    PDict [(lit "title",
            PList [PDict [(lit "text", PDict [(lit "content", title)])]])])].

(** An upstream answer to evaluate the model with: the page is not there. *)
Definition not_found : response :=
  {| status_code := 404;
     reason_phrase := lit "Not Found";
     url := NOTION_API_BASE ++ lit "/pages/abc";
     location := None;
     text := dumps (PDict [(lit "object", PStr (lit "error"));
                           (lit "status", PInt 404);
                           (lit "code", PStr (lit "object_not_found"));
                           (lit "message",
                            PStr (lit "Could not find page with ID: abc."))]) |}.

(** The catalog in the order of its declaration. *)
Definition declared_names : list str :=
  [lit "search_notion"; lit "get_page"; lit "create_page"; lit "update_page";
   lit "query_database"; lit "get_block_children"; lit "append_blocks"].

(** The headers of the client built from a credential. *)
Definition credential_headers (token : str) : list (str * str) :=
  [(lit "Authorization", lit "Bearer " ++ token);
   (lit "Notion-Version", lit "2022-06-28");
   (lit "Content-Type", lit "application/json")].

(** An upstream answer to evaluate the model with: a page, as compact JSON
    with an escaped accent and an escaped surrogate pair in its title. *)
Definition quoted (s : string) : str := 34%N :: lit s ++ [34%N].

Definition found : response :=
  {| status_code := 200;
     reason_phrase := lit "OK";
     url := NOTION_API_BASE ++ lit "/pages/abc";
     location := None;
     text := lit "{" ++ quoted "object" ++ lit ":" ++ quoted "page"
               ++ lit "," ++ quoted "score" ++ lit ":1.5"
               ++ lit "," ++ quoted "tags" ++ lit ":[true,null,-3,{}]"
               ++ lit "," ++ quoted "title" ++ lit ":"
               ++ quoted "caf\u00e9 \ud83d\ude00" ++ lit "}" |}.

Definition found_body : pyval :=
  PDict [(lit "object", PStr (lit "page"));
         (lit "score", PFloat (S754_finite false 3 (-1)));
         (lit "tags", PList [PBool true; PNone; PInt (-3); PDict []]);
         (lit "title", PStr (lit "caf" ++ [233%N; 32%N; 128512%N]))].

(** ** Vocabulary of the round trip *)

Section RoundTripVocabulary.
Context {RT : Runtime}.
Local Open Scope N_scope.

(** A string as the decoder produces it: code points below 0x110000, and
    no high surrogate directly followed by a low one (the decoder joins such
    a pair into one code point). *)
Fixpoint valid_str (s : str) : bool :=
  match s with
  | [] => true
  | c :: s' =>
      (c <? 1114112)
      && negb (is_high_surrogate c
               && match s' with c' :: _ => is_low_surrogate c' | [] => false end)
      && valid_str s'
  end.

(** The text after an escaped high surrogate does not go on with the escape
    of a low surrogate. *)
Definition lookahead_ok (t : str) : Prop :=
  forall s4, strip_prefix [92; 117] t = Some s4 ->
  exists u s5, decode_uXXXX s4 = Some (u, s5) /\ is_low_surrogate u = false.

(** What follows a value in the output of the encoder: nothing, a comma
    or a newline. *)
Definition delimited (rest : str) : Prop :=
  match rest with
  | [] => True
  | c :: _ => c = 44 \/ c = 10
  end.

(** [s] is, as a whole, a number literal with a fraction or an exponent. *)
Definition float_literal (s : str) : bool :=
  match match_number s with
  | Some (_, frac, exp, []) => negb (str_empty frac && str_empty exp)
  | _ => false
  end.

(** The guarantee of [float.__repr__] for a float that is not NaN or an
    infinity: the text is a float literal and [float] reads it back. *)
Definition float_roundtrips (f : spec_float) : Prop :=
  match f with
  | S754_nan | S754_infinity _ => True
  | _ => float_literal (float_repr f) = true
         /\ float_of_literal (float_repr f) = f
  end.

(** The number of recursive calls the decoder needs for a value. *)
Fixpoint weight (v : pyval) : nat :=
  match v with
  | PList l => S (list_sum (map (fun x => S (weight x)) l))
  | PDict d => S (list_sum (map (fun kv => S (weight (snd kv))) d))
  | _ => 1
  end.

(** No key occurs twice. *)
Fixpoint distinct (keys : list str) : bool :=
  match keys with
  | [] => true
  | k :: ks => negb (existsb (str_eqb k) ks) && distinct ks
  end.

(** A value as the decoder produces it: its strings are [valid_str] and
    the keys of each dict are distinct. *)
Fixpoint wellformed (v : pyval) : bool :=
  match v with
  | PStr s => valid_str s
  | PList l => forallb wellformed l
  | PDict d =>
      distinct (map fst d)
      && forallb (fun kv => valid_str (fst kv) && wellformed (snd kv)) d
  | _ => true
  end.

(** The same float, sign, mantissa and exponent. *)
Definition float_same (a b : spec_float) : bool :=
  match a, b with
  | S754_zero s, S754_zero s' => Bool.eqb s s'
  | S754_infinity s, S754_infinity s' => Bool.eqb s s'
  | S754_nan, S754_nan => true
  | S754_finite s m e, S754_finite s' m' e' =>
      Bool.eqb s s' && Pos.eqb m m' && Z.eqb e e'
  | _, _ => false
  end.

(** [float_roundtrips] as a test. *)
Definition float_roundtripsb (f : spec_float) : bool :=
  match f with
  | S754_nan | S754_infinity _ => true
  | _ => float_literal (float_repr f)
         && float_same (float_of_literal (float_repr f)) f
  end.

(** Every float inside the value round-trips through [float.__repr__]. *)
Fixpoint floats_roundtrip (v : pyval) : bool :=
  match v with
  | PFloat f => float_roundtripsb f
  | PList l => forallb floats_roundtrip l
  | PDict d => forallb (fun kv => floats_roundtrip (snd kv)) d
  | _ => true
  end.

(** The decoder reads [v] back from its encoding at any indentation, in
    front of any delimited text, when it has enough fuel. *)
Definition roundtrip_at (v : pyval) : Prop :=
  forall level rest fuel,
    wellformed v = true -> floats_roundtrip v = true ->
    delimited rest -> (weight v <= fuel)%nat ->
    scan_once fuel (iterencode v level ++ rest) = Some (v, rest).

(** A Unicode scalar value: a code point that is not a surrogate. *)
Definition scalar_char (c : char) : bool :=
  (c <? 1114112) && negb ((55296 <=? c) && (c <=? 57343)).

(** A document as the decoding of UTF-8 yields it. *)
Definition scalar_text (s : str) : bool := forallb scalar_char s.

(** When the decoded string starts with a low surrogate, the text started
    with its escape. *)
Definition low_head_from (s out : str) : Prop :=
  forall c out', out = c :: out' -> is_low_surrogate c = true ->
  exists s4 s5,
    strip_prefix [92; 117] s = Some s4 /\ decode_uXXXX s4 = Some (c, s5).

(** A key and a value as the decoder produces them. *)
Definition entry_ok (kv : str * pyval) : bool :=
  valid_str (fst kv) && wellformed (snd kv).

End RoundTripVocabulary.

(** ** Vocabulary of the further properties *)

Section CoverageVocabulary.
Context {RT : Runtime}.

(** A value that is neither [None], a list nor a dict. *)
Definition scalar_value (v : pyval) : bool :=
  match v with
  | PBool _ | PInt _ | PFloat _ | PStr _ => true
  | _ => false
  end.

(** The keys under [properties] in the input schema of a tool. *)
Definition schema_keys (t : Tool) : list str :=
  match inputSchema t with
  | PDict schema =>
      match dict_lookup schema (lit "properties") with
      | Some (PDict properties) => map fst properties
      | _ => []
      end
  | _ => []
  end.

(** A 7-bit character, and a text of such characters. *)
Definition is_ascii (c : char) : bool := (c <? 128)%N.

Definition ascii_text (s : str) : bool := forallb is_ascii s.

(** Every float inside the value is written in ASCII. *)
Fixpoint floats_ascii (v : pyval) : bool :=
  match v with
  | PFloat f => ascii_text (floatstr f)
  | PList l => forallb floats_ascii l
  | PDict d => forallb (fun kv => floats_ascii (snd kv)) d
  | _ => true
  end.

End CoverageVocabulary.

(** * Properties *)

(** ** Strings and dicts *)

Lemma str_eqb_refl (a : str) : str_eqb a a = true.
Proof.
  induction a as [|x a IH]; simpl; [reflexivity|].
  now rewrite N.eqb_refl, IH.
Qed.

Lemma str_eqb_eq (a b : str) : str_eqb a b = true <-> a = b.
Proof.
  split.
  - revert b; induction a as [|x a IH]; intros [|y b]; simpl; try discriminate.
    + reflexivity.
    + intros H. apply andb_true_iff in H as [Hx Hr].
      apply N.eqb_eq in Hx. apply IH in Hr. now subst.
  - intros ->. apply str_eqb_refl.
Qed.

Lemma str_eqb_neq (a b : str) : str_eqb a b = false <-> a <> b.
Proof.
  split.
  - intros H E. apply str_eqb_eq in E. congruence.
  - intros H. destruct (str_eqb a b) eqn:E; [|reflexivity].
    apply str_eqb_eq in E. contradiction.
Qed.

Lemma str_eqb_sym (a b : str) : str_eqb a b = str_eqb b a.
Proof.
  destruct (str_eqb a b) eqn:E.
  - apply str_eqb_eq in E. subst. symmetry. apply str_eqb_refl.
  - symmetry. apply str_eqb_neq. apply str_eqb_neq in E. congruence.
Qed.



Lemma strip_prefix_app (p s : str) : strip_prefix p (p ++ s) = Some s.
Proof.
  induction p as [|x p IH]; simpl; [reflexivity|].
  now rewrite N.eqb_refl.
Qed.

Lemma contains_app (needle pre post : str) :
  contains needle (pre ++ needle ++ post) = true.
Proof.
  induction pre as [|x pre IH].
  - simpl. destruct post, needle; simpl;
      try rewrite N.eqb_refl; try rewrite strip_prefix_app; reflexivity.
  - change ((x :: pre) ++ needle ++ post) with (x :: (pre ++ needle ++ post)).
    unfold contains; fold contains.
    destruct (strip_prefix needle (x :: pre ++ needle ++ post));
      [reflexivity|exact IH].
Qed.

Lemma dict_lookup_set_same (d : dict) k v :
  dict_lookup (dict_set d k v) k = Some v.
Proof.
  induction d as [|[k' v'] d IH]; simpl.
  - now rewrite str_eqb_refl.
  - destruct (str_eqb k' k) eqn:E; simpl; rewrite E; [reflexivity|exact IH].
Qed.

Lemma dict_lookup_set_other (d : dict) k v k' :
  k <> k' -> dict_lookup (dict_set d k v) k' = dict_lookup d k'.
Proof.
  intros Hk. induction d as [|[k0 v0] d IH]; simpl.
  - apply str_eqb_neq in Hk. now rewrite Hk.
  - destruct (str_eqb k0 k) eqn:E; simpl.
    + apply str_eqb_eq in E. subst k0.
      apply str_eqb_neq in Hk. now rewrite Hk.
    + destruct (str_eqb k0 k'); [reflexivity|exact IH].
Qed.

Lemma dict_lookup_none (d : dict) k :
  dict_lookup d k = None <-> ~ In k (map fst d).
Proof.
  induction d as [|[k' v'] d IH]; simpl.
  - tauto.
  - destruct (str_eqb k' k) eqn:E.
    + apply str_eqb_eq in E. split; [discriminate|]. intros H. exfalso. tauto.
    + apply str_eqb_neq in E. rewrite IH. tauto.
Qed.

Lemma dict_lookup_update_absent (o d : dict) k :
  dict_lookup o k = None ->
  dict_lookup (dict_update d o) k = dict_lookup d k.
Proof.
  revert d. induction o as [|[k' v'] o IH]; intros d H; simpl in *.
  - reflexivity.
  - destruct (str_eqb k' k) eqn:E; [discriminate|].
    unfold dict_update in *. simpl. rewrite IH by exact H.
    apply dict_lookup_set_other. now apply str_eqb_neq.
Qed.

Lemma dict_lookup_update_present (o d : dict) k v :
  distinct_keys o ->
  dict_lookup o k = Some v ->
  dict_lookup (dict_update d o) k = Some v.
Proof.
  unfold distinct_keys. revert d.
  induction o as [|[k' v'] o IH]; intros d Hnd H; simpl in *.
  - discriminate.
  - inversion Hnd as [|? ? Hnotin Hnd']; subst.
    unfold dict_update in *. simpl.
    destruct (str_eqb k' k) eqn:E.
    + apply str_eqb_eq in E. subst k'. injection H as ->.
      change (dict_lookup (dict_update (dict_set d k v) o) k = Some v).
      rewrite dict_lookup_update_absent.
      * apply dict_lookup_set_same.
      * now apply dict_lookup_none.
    + now apply IH.
Qed.

Lemma bind_ret {A B} (a : A) (k : A -> M B) : bind (ret a) k = k a.
Proof. unfold bind, ret. now destruct (k a). Qed.

(** ** The decoder reads back what the encoder writes *)

Ltac Zify.zify_post_hook ::= Z.to_euclidean_division_equations.

Section RoundTrip.
Context {RT : Runtime}.
Local Open Scope N_scope.

Lemma hexval_hex_digit d : d < 16 -> hexval (hex_digit d) = Some d.
Proof.
  intros H.
  assert (E : d = 0 \/ d = 1 \/ d = 2 \/ d = 3 \/ d = 4 \/ d = 5 \/ d = 6
              \/ d = 7 \/ d = 8 \/ d = 9 \/ d = 10 \/ d = 11 \/ d = 12
              \/ d = 13 \/ d = 14 \/ d = 15) by lia.
  repeat (destruct E as [-> | E]; [reflexivity|]). now subst.
Qed.

Lemma decode_u_escape n rest :
  n < 65536 ->
  u_escape n ++ rest
  = 92 :: 117 :: hex_digit (n / 4096 mod 16) :: hex_digit (n / 256 mod 16)
       :: hex_digit (n / 16 mod 16) :: hex_digit (n mod 16) :: rest
  /\ decode_uXXXX (hex_digit (n / 4096 mod 16) :: hex_digit (n / 256 mod 16)
       :: hex_digit (n / 16 mod 16) :: hex_digit (n mod 16) :: rest)
     = Some (n, rest).
Proof.
  intros H. split; [reflexivity|].
  unfold decode_uXXXX.
  rewrite !hexval_hex_digit by (apply N.mod_lt; discriminate).
  f_equal. f_equal. lia.
Qed.

Lemma lor_shiftl_low a b k :
  b < 2 ^ k -> N.lor (N.shiftl a k) b = a * 2 ^ k + b.
Proof.
  intros Hb. rewrite <- N.shiftl_mul_pow2.
  rewrite <- N.lxor_lor, <- N.add_nocarry_lxor; try reflexivity.
  all: apply N.bits_inj; intros i; rewrite N.land_spec, N.bits_0;
    destruct (N.lt_ge_cases i k) as [Hi|Hi].
  all: try (rewrite N.shiftl_spec_low by exact Hi; reflexivity).
  all: rewrite <- (N.mod_small b (2 ^ k)) by exact Hb;
    rewrite N.mod_pow2_bits_high by exact Hi; apply andb_false_r.
Qed.

Lemma surrogate_pair_split c :
  65536 <= c -> c < 1114112 ->
  let n := c - 65536 in
  N.lor 55296 (N.land (N.shiftr n 10) 1023) = 55296 + n / 1024
  /\ N.lor 56320 (N.land n 1023) = 56320 + n mod 1024.
Proof.
  intros Hlo Hhi n.
  change 1023 with (N.ones 10). rewrite !N.land_ones, N.shiftr_div_pow2.
  change (2 ^ 10) with 1024.
  change 55296 with (N.shiftl 54 10) at 1.
  change 56320 with (N.shiftl 55 10) at 1.
  rewrite !lor_shiftl_low by (change (2 ^ 10) with 1024; apply N.mod_lt; discriminate).
  change (2 ^ 10) with 1024. split; [|reflexivity].
  rewrite N.mod_small; [reflexivity|]. subst n. lia.
Qed.

Lemma surrogate_pair_join c :
  65536 <= c -> c < 1114112 ->
  let n := c - 65536 in
  65536 + N.lor (N.shiftl (55296 + n / 1024 - 55296) 10)
                (56320 + n mod 1024 - 56320) = c.
Proof.
  intros Hlo Hhi n.
  replace (55296 + n / 1024 - 55296) with (n / 1024) by lia.
  replace (56320 + n mod 1024 - 56320) with (n mod 1024) by lia.
  rewrite lor_shiftl_low by (change (2 ^ 10) with 1024; apply N.mod_lt; discriminate).
  change (2 ^ 10) with 1024. subst n. lia.
Qed.

Lemma encode_char_cases c :
  c < 1114112 ->
  (ESCAPE_ASCII c = false /\ c <> 34 /\ c <> 92 /\ 32 <= c /\ encode_char c = [c])
  \/ (exists x, encode_char c = [92; x] /\ x <> 117 /\ BACKSLASH x = Some c)
  \/ (c < 65536 /\ encode_char c = u_escape c)
  \/ (65536 <= c /\
      encode_char c = u_escape (55296 + (c - 65536) / 1024)
                        ++ u_escape (56320 + (c - 65536) mod 1024)).
Proof.
  intros Hc. unfold encode_char.
  destruct (ESCAPE_ASCII c) eqn:E.
  - right. unfold replace, ESCAPE_DCT.
    destruct (N.eqb_spec c 92) as [->|H92]; [left; exists 92; now repeat split|].
    destruct (N.eqb_spec c 34) as [->|H34]; [left; exists 34; now repeat split|].
    destruct (N.eqb_spec c 8) as [->|H8]; [left; exists 98; now repeat split|].
    destruct (N.eqb_spec c 12) as [->|H12]; [left; exists 102; now repeat split|].
    destruct (N.eqb_spec c 10) as [->|H10]; [left; exists 110; now repeat split|].
    destruct (N.eqb_spec c 13) as [->|H13]; [left; exists 114; now repeat split|].
    destruct (N.eqb_spec c 9) as [->|H9]; [left; exists 116; now repeat split|].
    right. destruct (N.ltb_spec c 65536) as [Hlt|Hge].
    + left. now split.
    + right. split; [exact Hge|].
      destruct (surrogate_pair_split Hge Hc) as [-> ->]. reflexivity.
  - left. unfold ESCAPE_ASCII in E.
    apply orb_false_iff in E as [E E3]. apply orb_false_iff in E as [E1 E2].
    apply negb_false_iff in E3. apply andb_true_iff in E3 as [E3 E4].
    apply N.eqb_neq in E1, E2. apply N.leb_le in E3.
    repeat split; auto.
Qed.

Lemma encode_char_lookahead c t :
  c < 1114112 -> is_low_surrogate c = false ->
  lookahead_ok (encode_char c ++ t).
Proof.
  intros Hc Hlow s4 Hs4.
  destruct (encode_char_cases Hc)
    as [(_ & _ & H92 & _ & E) | [(x & E & Hx & _) | [(Hlt & E) | (Hge & E)]]];
    rewrite E in Hs4.
  - cbn [strip_prefix app] in Hs4. destruct (N.eqb_spec 92 c); [congruence|discriminate].
  - cbn [strip_prefix app] in Hs4. change (92 =? 92) with true in Hs4. cbv iota in Hs4.
    destruct (N.eqb_spec 117 x); [congruence|discriminate].
  - destruct (decode_u_escape t Hlt) as [Eu Ed]. rewrite Eu in Hs4.
    cbn [strip_prefix] in Hs4. change (92 =? 92) with true in Hs4.
    change (117 =? 117) with true in Hs4. cbv iota in Hs4.
    injection Hs4 as <-. eauto.
  - rewrite <- app_assoc in Hs4.
    assert (H1 : 55296 + (c - 65536) / 1024 < 65536) by lia.
    destruct (decode_u_escape (u_escape (56320 + (c - 65536) mod 1024) ++ t) H1)
      as [Eu Ed].
    rewrite Eu in Hs4. cbn [strip_prefix] in Hs4.
    change (92 =? 92) with true in Hs4.
    change (117 =? 117) with true in Hs4. cbv iota in Hs4.
    injection Hs4 as <-.
    eexists _, _. split; [exact Ed|].
    unfold is_low_surrogate. apply andb_false_iff. left. apply N.leb_gt. lia.
Qed.

Lemma encode_char_length c : c < 1114112 -> (1 <= length (encode_char c))%nat.
Proof.
  intros Hc.
  destruct (encode_char_cases Hc)
    as [(_ & _ & _ & _ & E) | [(x & E & _) | [(_ & E) | (_ & E)]]];
    rewrite E; simpl; lia.
Qed.

Lemma scanstring_step c t fuel :
  c < 1114112 ->
  (is_high_surrogate c = true -> lookahead_ok t) ->
  scanstring_loop (S fuel) (encode_char c ++ t)
  = match scanstring_loop fuel t with
    | Some (chunks, s') => Some (c :: chunks, s')
    | None => None
    end.
Proof.
  intros Hc Hlook.
  destruct (encode_char_cases Hc)
    as [(_ & H34 & H92 & H32 & E) | [(x & E & Hx & Hb) | [(Hlt & E) | (Hge & E)]]];
    rewrite E.
  - cbn [scanstring_loop app].
    apply N.eqb_neq in H34, H92. apply N.ltb_ge in H32.
    now rewrite H34, H92, H32.
  - cbn [scanstring_loop app].
    change (92 =? 34) with false. change (92 =? 92) with true. cbv iota.
    apply N.eqb_neq in Hx. rewrite Hx, Hb. reflexivity.
  - destruct (decode_u_escape t Hlt) as [Eu Ed]. rewrite Eu.
    cbn [scanstring_loop].
    change (92 =? 34) with false. change (92 =? 92) with true.
    change (negb (117 =? 117)) with false. cbv iota.
    rewrite Ed.
    destruct (is_high_surrogate c) eqn:Eh; [|reflexivity].
    destruct (strip_prefix [92; 117] t) as [s4|] eqn:Es; [|reflexivity].
    destruct (Hlook eq_refl s4 Es) as (u & s5 & Hd & Hl).
    now rewrite Hd, Hl.
  - rewrite <- app_assoc.
    set (s1 := 55296 + (c - 65536) / 1024).
    set (s2 := 56320 + (c - 65536) mod 1024).
    assert (H1 : s1 < 65536) by (subst s1; lia).
    assert (H2 : s2 < 65536) by (subst s2; lia).
    destruct (decode_u_escape (u_escape s2 ++ t) H1) as [Eu1 Ed1].
    destruct (decode_u_escape t H2) as [Eu2 Ed2].
    rewrite Eu1. cbn [scanstring_loop].
    change (92 =? 34) with false. change (92 =? 92) with true.
    change (negb (117 =? 117)) with false. cbv iota.
    rewrite Ed1.
    assert (Hh : is_high_surrogate s1 = true).
    { unfold is_high_surrogate. apply andb_true_iff.
      split; apply N.leb_le; subst s1; lia. }
    assert (Hl : is_low_surrogate s2 = true).
    { unfold is_low_surrogate. apply andb_true_iff.
      split; apply N.leb_le; subst s2; lia. }
    rewrite Hh, Eu2. cbn [strip_prefix].
    change (92 =? 92) with true. change (117 =? 117) with true. cbv iota.
    rewrite Ed2, Hl.
    subst s1 s2. rewrite (surrogate_pair_join Hge Hc). reflexivity.
Qed.

Lemma scanstring_loop_encoded s rest fuel :
  valid_str s = true ->
  (length (flat_map encode_char s) < fuel)%nat ->
  scanstring_loop fuel (flat_map encode_char s ++ 34 :: rest) = Some (s, rest).
Proof.
  revert fuel. induction s as [|c s IH]; intros fuel Hv Hf.
  - destruct fuel as [|fuel]; [inversion Hf|]. reflexivity.
  - cbn [valid_str] in Hv.
    apply andb_true_iff in Hv as [Hv Hs]. apply andb_true_iff in Hv as [Hc Hp].
    apply N.ltb_lt in Hc. apply negb_true_iff in Hp.
    cbn [flat_map] in Hf |- *. rewrite length_app in Hf.
    pose proof (encode_char_length Hc) as Hlen.
    destruct fuel as [|fuel]; [inversion Hf|].
    rewrite <- app_assoc, scanstring_step.
    + rewrite IH by (trivial; lia). reflexivity.
    + exact Hc.
    + intros Hh. rewrite Hh in Hp. cbn [andb] in Hp.
      destruct s as [|c' s'].
      * intros s4 H4. cbn [flat_map app strip_prefix] in H4.
        change (92 =? 34) with false in H4. discriminate.
      * cbn [valid_str] in Hs.
        apply andb_true_iff in Hs as [Hs _]. apply andb_true_iff in Hs as [Hc' _].
        apply N.ltb_lt in Hc'.
        cbn [flat_map]. rewrite <- app_assoc.
        now apply encode_char_lookahead.
Qed.

Lemma scanstring_encoded s rest :
  valid_str s = true ->
  scanstring (flat_map encode_char s ++ 34 :: rest) = Some (s, rest).
Proof.
  intros Hv. unfold scanstring. apply scanstring_loop_encoded; [exact Hv|].
  rewrite length_app. simpl. lia.
Qed.

Lemma take_digits_app s rest :
  delimited rest ->
  take_digits (s ++ rest)
  = let (ds, s') := take_digits s in (ds, s' ++ rest).
Proof.
  intros Hr. induction s as [|c s IH].
  - destruct rest as [|c rest]; [reflexivity|].
    cbn [app take_digits]. destruct Hr as [-> | ->]; reflexivity.
  - cbn [app take_digits]. destruct (is_digit c); [|reflexivity].
    rewrite IH. now destruct (take_digits s).
Qed.

Lemma take_digits_split s ds s' : take_digits s = (ds, s') -> s = ds ++ s'.
Proof.
  revert ds s'. induction s as [|c s IH]; intros ds s' H.
  - injection H as <- <-. reflexivity.
  - cbn [take_digits] in H. destruct (is_digit c).
    + destruct (take_digits s) as [ds0 s0]. injection H as <- <-.
      cbn [app]. f_equal. now apply IH.
    + injection H as <- <-. reflexivity.
Qed.

Lemma match_frac_app s rest :
  delimited rest ->
  match_frac (s ++ rest) = let (fr, s') := match_frac s in (fr, s' ++ rest).
Proof.
  intros Hr. destruct s as [|c t].
  - destruct rest as [|c rest]; [reflexivity|].
    cbn [app match_frac]. destruct Hr as [-> | ->]; reflexivity.
  - cbn [app match_frac]. destruct (c =? 46); [|reflexivity].
    rewrite (take_digits_app t rest Hr).
    destruct (take_digits t) as [[|d ds] t']; reflexivity.
Qed.

Lemma match_frac_split s fr s' : match_frac s = (fr, s') -> s = fr ++ s'.
Proof.
  destruct s as [|c t]; cbn [match_frac].
  - now intros [= <- <-].
  - destruct (c =? 46); [|now intros [= <- <-]].
    destruct (take_digits t) as [[|d ds] t'] eqn:E; intros [= <- <-].
    + reflexivity.
    + cbn [app]. f_equal. apply take_digits_split in E. exact E.
Qed.

Lemma match_exp_app s rest :
  delimited rest ->
  match_exp (s ++ rest) = let (ex, s') := match_exp s in (ex, s' ++ rest).
Proof.
  intros Hr. destruct s as [|e t].
  - destruct rest as [|c rest]; [reflexivity|].
    cbn [app match_exp]. destruct Hr as [-> | ->]; reflexivity.
  - cbn [app match_exp]. destruct ((e =? 101) || (e =? 69)); [|reflexivity].
    destruct t as [|c t'].
    + cbn [app]. destruct rest as [|c rest]; [reflexivity|].
      destruct Hr as [-> | ->]; reflexivity.
    + cbn [app]. destruct ((c =? 45) || (c =? 43)).
      * rewrite (take_digits_app t' rest Hr).
        destruct (take_digits t') as [[|d ds] t'']; reflexivity.
      * rewrite app_comm_cons, (take_digits_app (c :: t') rest Hr).
        destruct (take_digits (c :: t')) as [[|d ds] t'']; reflexivity.
Qed.

Lemma match_exp_split s ex s' : match_exp s = (ex, s') -> s = ex ++ s'.
Proof.
  destruct s as [|e t]; cbn [match_exp].
  - now intros [= <- <-].
  - destruct ((e =? 101) || (e =? 69)); [|now intros [= <- <-]].
    destruct t as [|c t'].
    + cbn [take_digits]. now intros [= <- <-].
    + destruct ((c =? 45) || (c =? 43)).
      * destruct (take_digits t') as [[|d ds] t''] eqn:E; intros [= <- <-];
          [reflexivity|].
        apply take_digits_split in E. rewrite E. reflexivity.
      * destruct (take_digits (c :: t')) as [[|d ds] t''] eqn:E;
          intros [= <- <-]; [reflexivity|].
        apply take_digits_split in E. rewrite E. reflexivity.
Qed.

Lemma match_integer_app s rest i s' :
  delimited rest ->
  match_integer s = Some (i, s') ->
  match_integer (s ++ rest) = Some (i, s' ++ rest).
Proof.
  intros Hr. unfold match_integer.
  assert (body : forall (sign s1 : str),
    match s1 with
    | [] => None
    | d :: s2 =>
        if d =? 48 then Some (sign ++ [d], s2)
        else if is_digit d then
          let (ds, r) := take_digits s2 in Some (sign ++ d :: ds, r)
        else None
    end = Some (i, s') ->
    match s1 ++ rest with
    | [] => None
    | d :: s2 =>
        if d =? 48 then Some (sign ++ [d], s2)
        else if is_digit d then
          let (ds, r) := take_digits s2 in Some (sign ++ d :: ds, r)
        else None
    end = Some (i, s' ++ rest)).
  { intros sign [|d s2]; [discriminate|]. cbn [app].
    destruct (d =? 48); [now intros [= <- <-]|].
    destruct (is_digit d); [|discriminate].
    rewrite (take_digits_app s2 rest Hr).
    destruct (take_digits s2) as [ds r]. now intros [= <- <-]. }
  destruct s as [|c t]; [discriminate|].
  cbn [app]. destruct (c =? 45).
  - apply body.
  - apply (body [] (c :: t)).
Qed.

Lemma match_integer_split s i s' :
  match_integer s = Some (i, s') -> s = i ++ s'.
Proof.
  unfold match_integer.
  assert (body : forall (sign s1 : str),
    match s1 with
    | [] => None
    | d :: s2 =>
        if d =? 48 then Some (sign ++ [d], s2)
        else if is_digit d then
          let (ds, r) := take_digits s2 in Some (sign ++ d :: ds, r)
        else None
    end = Some (i, s') -> sign ++ s1 = i ++ s').
  { intros sign [|d s2]; [discriminate|].
    destruct (d =? 48).
    - intros [= <- <-]. now rewrite <- app_assoc.
    - destruct (is_digit d); [|discriminate].
      destruct (take_digits s2) as [ds r] eqn:E. intros [= <- <-].
      apply take_digits_split in E. rewrite E, <- app_assoc. reflexivity. }
  destruct s as [|c t]; [discriminate|].
  destruct (N.eqb_spec c 45) as [->|Hc].
  - intros H. apply (body [45] t H).
  - intros H. apply (body [] (c :: t) H).
Qed.

Lemma match_integer_head s i s' :
  match_integer s = Some (i, s') ->
  exists c t, s = c :: t /\ (c = 45 \/ is_digit c = true).
Proof.
  unfold match_integer. destruct s as [|c t]; [discriminate|].
  intros H. exists c, t. split; [reflexivity|].
  destruct (N.eqb_spec c 45) as [->|Hc]; [now left|].
  right. destruct (N.eqb_spec c 48) as [->|H48]; [reflexivity|].
  destruct (is_digit c); [reflexivity|discriminate].
Qed.

Lemma match_number_app s rest i fr ex s3 :
  delimited rest ->
  match_number s = Some (i, fr, ex, s3) ->
  match_number (s ++ rest) = Some (i, fr, ex, s3 ++ rest).
Proof.
  intros Hr. unfold match_number.
  destruct (match_integer s) as [[i0 s1]|] eqn:Ei; [|discriminate].
  rewrite (match_integer_app s rest Hr Ei).
  rewrite (match_frac_app s1 rest Hr).
  destruct (match_frac s1) as [fr0 s2].
  rewrite (match_exp_app s2 rest Hr).
  destruct (match_exp s2) as [ex0 s3']. now intros [= <- <- <- <-].
Qed.

Lemma match_number_split s i fr ex s3 :
  match_number s = Some (i, fr, ex, s3) -> s = i ++ fr ++ ex ++ s3.
Proof.
  unfold match_number.
  destruct (match_integer s) as [[i0 s1]|] eqn:Ei; [|discriminate].
  destruct (match_frac s1) as [fr0 s2] eqn:Ef.
  destruct (match_exp s2) as [ex0 s3'] eqn:Ee. intros [= <- <- <- <-].
  apply match_integer_split in Ei. apply match_frac_split in Ef.
  apply match_exp_split in Ee. now subst.
Qed.

Lemma match_number_head s r :
  match_number s = Some r ->
  exists c t, s = c :: t /\ (c = 45 \/ is_digit c = true).
Proof.
  unfold match_number.
  destruct (match_integer s) as [[i0 s1]|] eqn:Ei; [|discriminate].
  intros _. eapply match_integer_head; eauto.
Qed.

Lemma take_digits_uint u : take_digits (uint_chars u) = (uint_chars u, []).
Proof.
  induction u; cbn [uint_chars take_digits]; try reflexivity;
    match goal with
    | |- context [is_digit ?c] => change (is_digit c) with true
    end; cbv iota; rewrite IHu; reflexivity.
Qed.

Lemma chars_uint_chars u : chars_uint (uint_chars u) = u.
Proof.
  unfold chars_uint.
  induction u; cbn [uint_chars fold_right]; try reflexivity;
    rewrite IHu; reflexivity.
Qed.

Lemma nzhead_not_D0 d u : Decimal.nzhead d <> Decimal.D0 u.
Proof. induction d; cbn [Decimal.nzhead]; try discriminate. exact IHd. Qed.

Lemma to_uint_normal p : Decimal.nzhead (Pos.to_uint p) = Pos.to_uint p.
Proof.
  pose proof (DecimalPos.Unsigned.to_of (Pos.to_uint p)) as H.
  rewrite DecimalPos.Unsigned.of_to in H. cbn [N.to_uint] in H.
  unfold Decimal.unorm in H.
  destruct (Decimal.nzhead (Pos.to_uint p)) eqn:E; try (symmetry; exact H).
  exfalso. apply (DecimalPos.Unsigned.to_uint_nonzero p). exact H.
Qed.

Lemma to_uint_head p :
  exists c ds,
    uint_chars (Pos.to_uint p) = c :: ds
    /\ is_digit c = true /\ (c =? 48) = false /\ (c =? 45) = false
    /\ take_digits ds = (ds, []).
Proof.
  pose proof (to_uint_normal p) as Hn.
  pose proof (DecimalPos.Unsigned.to_uint_nonnil p) as Hnil.
  destruct (Pos.to_uint p) as [|u|u|u|u|u|u|u|u|u|u] eqn:E;
    try contradiction;
    try (eexists _, (uint_chars u); cbn [uint_chars];
         repeat split; try reflexivity; apply take_digits_uint).
  exfalso. exact (nzhead_not_D0 _ Hn).
Qed.

Lemma match_number_intstr z :
  match_number (intstr z) = Some (intstr z, [], [], []).
Proof.
  destruct z as [|p|p]; [reflexivity| |];
    destruct (to_uint_head p) as (c & ds & E & Hd & H48 & H45 & Ht);
    unfold intstr; rewrite E; unfold match_number, match_integer.
  - rewrite H45, H48, Hd, Ht. reflexivity.
  - change (45 =? 45) with true. cbv iota. rewrite H48, Hd, Ht. reflexivity.
Qed.

Lemma parse_int_intstr z : parse_int (intstr z) = z.
Proof.
  destruct z as [|p|p]; [reflexivity| |]; unfold parse_int, intstr.
  - destruct (to_uint_head p) as (c & ds & E & Hd & H48 & H45 & Ht).
    rewrite E. cbn [strip_prefix].
    rewrite N.eqb_sym, H45. rewrite <- E, chars_uint_chars.
    unfold N.of_uint. rewrite DecimalPos.Unsigned.of_to. reflexivity.
  - cbn [strip_prefix]. change (45 =? 45) with true. cbv iota.
    destruct (uint_chars (Pos.to_uint p)) eqn:E;
      rewrite <- E, chars_uint_chars;
      unfold N.of_uint; rewrite DecimalPos.Unsigned.of_to; reflexivity.
Qed.

Lemma number_head_tests c :
  c = 45 \/ is_digit c = true ->
  (c =? 34) = false /\ (c =? 123) = false /\ (c =? 91) = false
  /\ (110 =? c) = false /\ (116 =? c) = false /\ (102 =? c) = false
  /\ is_ws c = false /\ (c =? 93) = false /\ (c =? 125) = false.
Proof.
  intros [-> | H]; [repeat split; reflexivity|].
  unfold is_digit in H. apply andb_true_iff in H as [H1 H2].
  apply N.leb_le in H1, H2. unfold is_ws.
  repeat split; try (apply N.eqb_neq; lia).
  repeat (apply orb_false_iff; split); apply N.eqb_neq; lia.
Qed.

Lemma scan_once_number s rest fuel i fr ex :
  match_number s = Some (i, fr, ex, []) ->
  delimited rest ->
  scan_once (S fuel) (s ++ rest)
  = Some (if str_empty fr && str_empty ex then PInt (parse_int i)
          else PFloat (float_of_literal (i ++ fr ++ ex)), rest).
Proof.
  intros Hm Hr.
  destruct (match_number_head s Hm) as (c & t & -> & Hc).
  destruct (number_head_tests Hc) as (H1 & H2 & H3 & H4 & H5 & H6 & _).
  pose proof (match_number_app (c :: t) rest Hr Hm) as Hn.
  cbn [app] in Hn |- *. cbn [scan_once].
  rewrite H1, H2, H3.
  change (lit "null") with [110; 117; 108; 108].
  change (lit "true") with [116; 114; 117; 101].
  change (lit "false") with [102; 97; 108; 115; 101].
  cbn [strip_prefix]. rewrite H4, H5, H6.
  unfold scan_number. rewrite Hn.
  destruct (str_empty fr && str_empty ex); reflexivity.
Qed.

Lemma scan_once_int z rest fuel :
  delimited rest ->
  scan_once (S fuel) (intstr z ++ rest) = Some (PInt z, rest).
Proof.
  intros Hr.
  rewrite (@scan_once_number _ rest fuel _ _ _ (match_number_intstr z) Hr).
  cbn [str_empty andb]. now rewrite parse_int_intstr.
Qed.

Lemma scan_once_float f rest fuel :
  float_roundtrips f ->
  delimited rest ->
  scan_once (S fuel) (floatstr f ++ rest) = Some (PFloat f, rest).
Proof.
  intros Hf Hr.
  assert (finite : float_literal (float_repr f) = true ->
                   float_of_literal (float_repr f) = f ->
                   scan_once (S fuel) (float_repr f ++ rest)
                   = Some (PFloat f, rest)).
  { unfold float_literal. intros Hl Hv.
    destruct (match_number (float_repr f)) as [[[[i fr] ex] [|? ?]]|] eqn:Em;
      try discriminate.
    rewrite (@scan_once_number _ rest fuel _ _ _ Em Hr).
    apply negb_true_iff in Hl. rewrite Hl.
    apply match_number_split in Em. rewrite app_nil_r in Em.
    now rewrite <- Em, Hv. }
  destruct f as [s|s| |s m e]; cbn [floatstr float_roundtrips] in *.
  - destruct Hf. now apply finite.
  - destruct s; reflexivity.
  - reflexivity.
  - destruct Hf. now apply finite.
Qed.

Lemma scan_once_str s rest fuel :
  valid_str s = true ->
  scan_once (S fuel) (encode_basestring_ascii s ++ rest) = Some (PStr s, rest).
Proof.
  intros Hv. unfold encode_basestring_ascii.
  cbn [app scan_once]. change (34 =? 34) with true. cbv iota.
  rewrite <- app_assoc. cbn [app].
  now rewrite scanstring_encoded.
Qed.

Lemma pyval_nested_ind (P : pyval -> Prop) :
  P PNone -> (forall b, P (PBool b)) -> (forall z, P (PInt z)) ->
  (forall f, P (PFloat f)) -> (forall s, P (PStr s)) ->
  (forall l, Forall P l -> P (PList l)) ->
  (forall d, Forall (fun kv => P (snd kv)) d -> P (PDict d)) ->
  forall v, P v.
Proof.
  intros HN HB HI HF HS HL HD.
  fix IH 1. intros [| b | z | f | s | l | d].
  - exact HN.
  - apply HB.
  - apply HI.
  - apply HF.
  - apply HS.
  - apply HL. induction l as [|x l IHl]; constructor; [apply IH|exact IHl].
  - apply HD. induction d as [|[k x] d IHd]; constructor; [apply IH|exact IHd].
Qed.

Lemma skip_ws_head c s : is_ws c = false -> skip_ws (c :: s) = c :: s.
Proof. intros H. cbn [skip_ws]. now rewrite H. Qed.

Lemma skip_ws_newline_indent level s :
  skip_ws (newline_indent level ++ s) = skip_ws s.
Proof.
  unfold newline_indent. cbn [app skip_ws]. change (is_ws 10) with true.
  cbv iota. induction level as [|n IH]; [reflexivity|].
  cbn [repeat concat]. change (lit "  ") with [32; 32].
  cbn [app skip_ws]. change (is_ws 32) with true. cbv iota. exact IH.
Qed.

Lemma float_same_eq a b : float_same a b = true -> a = b.
Proof.
  destruct a as [s|s| |s m e], b as [s'|s'| |s' m' e']; cbn [float_same];
    try discriminate; try reflexivity.
  - intros H. apply Bool.eqb_prop in H. now subst.
  - intros H. apply Bool.eqb_prop in H. now subst.
  - intros H. apply andb_true_iff in H as [H He].
    apply andb_true_iff in H as [Hs Hm].
    apply Bool.eqb_prop in Hs. apply Pos.eqb_eq in Hm. apply Z.eqb_eq in He.
    now subst.
Qed.

Lemma float_roundtripsb_spec f :
  float_roundtripsb f = true -> float_roundtrips f.
Proof.
  destruct f as [s|s| |s m e]; cbn [float_roundtripsb float_roundtrips];
    try (intros _; exact I);
    intros H; apply andb_true_iff in H as [H1 H2];
    split; [exact H1 | now apply float_same_eq | exact H1 | now apply float_same_eq].
Qed.

Lemma float_literal_head s :
  float_literal s = true ->
  exists c t, s = c :: t /\ (c = 45 \/ is_digit c = true).
Proof.
  unfold float_literal.
  destruct (match_number s) as [r|] eqn:E; [|discriminate].
  intros _. exact (match_number_head s E).
Qed.

Lemma iterencode_head v level :
  floats_roundtrip v = true ->
  exists c t, iterencode v level = c :: t
              /\ is_ws c = false /\ (c =? 93) = false.
Proof.
  intros Hf.
  assert (number : forall s, (exists c t, s = c :: t
                                 /\ (c = 45 \/ is_digit c = true)) ->
                   exists c t, s = c :: t /\ is_ws c = false
                               /\ (c =? 93) = false).
  { intros s (c & t & -> & Hc).
    destruct (number_head_tests Hc) as (_ & _ & _ & _ & _ & _ & Hw & H93 & _).
    eauto. }
  destruct v as [| [|] | z | f | s | [|x l] | [|[k x] d]];
    cbn [iterencode iterencode_list iterencode_dict list_chunks app];
    try (eexists _, _; repeat split; reflexivity).
  - apply number. exact (match_number_head _ (match_number_intstr z)).
  - cbn [floats_roundtrip] in Hf.
    destruct f as [s|[|]| |s m e]; cbn [floatstr];
      try (eexists _, _; repeat split; reflexivity);
      apply number; apply float_literal_head;
      cbn [float_roundtripsb] in Hf; now apply andb_true_iff in Hf as [Hf _].
Qed.

Lemma delimited_newline_indent level s : delimited (newline_indent level ++ s).
Proof. right. reflexivity. Qed.

Lemma delimited_item_separator level s :
  delimited (item_separator level ++ s).
Proof. left. reflexivity. Qed.

Lemma array_loop_chunks xs : forall x acc fuel level rest,
  Forall roundtrip_at (x :: xs) ->
  forallb wellformed (x :: xs) = true ->
  forallb floats_roundtrip (x :: xs) = true ->
  (list_sum (map (fun x => S (weight x)) (x :: xs)) <= fuel)%nat ->
  array_loop fuel
    (iterencode x (S level)
       ++ list_chunks (fun v => iterencode v (S level))
            (item_separator (S level)) xs (item_separator (S level))
       ++ newline_indent level ++ 93 :: rest) acc
  = Some (PList (acc ++ x :: xs), rest).
Proof.
  induction xs as [|y ys IH]; intros x acc fuel level rest Hrt Hwf Hfl Hfuel;
    inversion Hrt as [|? ? Hx Hrest]; subst;
    cbn [forallb] in Hwf, Hfl;
    apply andb_true_iff in Hwf as [Hwx Hwr];
    apply andb_true_iff in Hfl as [Hfx Hfr];
    cbn [map list_sum fold_right] in Hfuel;
    (destruct fuel as [|fuel]; [inversion Hfuel|]);
    cbn [array_loop list_chunks].
  - cbn [app].
    rewrite (Hx (S level) _ fuel Hwx Hfx (delimited_newline_indent _ _))
      by lia.
    rewrite skip_ws_newline_indent. cbn [skip_ws].
    change (is_ws 93) with false. change (93 =? 93) with true. reflexivity.
  - rewrite <- !app_assoc.
    rewrite (Hx (S level) _ fuel Hwx Hfx (delimited_item_separator _ _))
      by lia.
    unfold item_separator at 1. cbn [app skip_ws].
    change (is_ws 44) with false. cbv iota. change (44 =? 93) with false.
    change (44 =? 44) with true. cbv iota.
    rewrite skip_ws_newline_indent.
    cbn [forallb] in Hfr. pose proof Hfr as Hfr'.
    apply andb_true_iff in Hfr' as [Hfy _].
    destruct (iterencode_head y (S level) Hfy) as (c & t & E & Hw & _).
    rewrite E. cbn [app]. rewrite skip_ws_head by exact Hw.
    rewrite app_comm_cons, <- E.
    rewrite (IH y (acc ++ [x]) fuel level rest Hrest Hwr Hfr).
    + now rewrite <- app_assoc.
    + cbn [map list_sum fold_right] in Hfuel |- *. lia.
Qed.

Lemma dict_set_fresh (d : dict) k v :
  existsb (str_eqb k) (map fst d) = false -> dict_set d k v = d ++ [(k, v)].
Proof.
  induction d as [|[k' v'] d IH]; cbn [map fst existsb dict_set app];
    [reflexivity|].
  intros H. apply orb_false_iff in H as [Hk Hd].
  rewrite str_eqb_sym, Hk. now rewrite IH.
Qed.

Lemma distinct_app_fresh (acc : list str) k ks :
  distinct (acc ++ k :: ks) = true -> existsb (str_eqb k) acc = false.
Proof.
  induction acc as [|a acc IH]; cbn [app distinct existsb]; [reflexivity|].
  intros H. apply andb_true_iff in H as [Ha Hd].
  apply negb_true_iff in Ha. rewrite existsb_app in Ha.
  apply orb_false_iff in Ha as [_ Ha]. cbn [existsb] in Ha.
  apply orb_false_iff in Ha as [Ha _].
  rewrite str_eqb_sym, Ha. now apply IH.
Qed.

Lemma dict_update_distinct (d acc : dict) :
  distinct (map fst (acc ++ d)) = true -> dict_update acc d = acc ++ d.
Proof.
  revert acc. induction d as [|[k v] d IH]; intros acc H.
  - now rewrite app_nil_r.
  - unfold dict_update in *. cbn [fold_left fst snd].
    rewrite dict_set_fresh.
    + rewrite IH; rewrite <- app_assoc; [reflexivity|exact H].
    + rewrite map_app in H. cbn [map fst] in H.
      now apply distinct_app_fresh in H.
Qed.

Lemma dict_of_pairs_distinct (d : dict) :
  distinct (map fst d) = true -> dict_of_pairs d = d.
Proof. intros H. unfold dict_of_pairs. now rewrite dict_update_distinct. Qed.

Lemma object_loop_chunks d : forall k v acc fuel level rest,
  Forall (fun kv => roundtrip_at (snd kv)) ((k, v) :: d) ->
  forallb (fun kv => valid_str (fst kv) && wellformed (snd kv)) ((k, v) :: d)
  = true ->
  forallb (fun kv => floats_roundtrip (snd kv)) ((k, v) :: d) = true ->
  (list_sum (map (fun kv => S (weight (snd kv))) ((k, v) :: d)) <= fuel)%nat ->
  object_loop fuel
    (flat_map encode_char k ++ 34 :: key_separator
       ++ iterencode v (S level)
       ++ dict_chunks (fun v => iterencode v (S level))
            (item_separator (S level)) d false
       ++ newline_indent level ++ 125 :: rest) acc
  = Some (PDict (dict_of_pairs (acc ++ (k, v) :: d)), rest).
Proof.
  induction d as [|[k' v'] d' IH]; intros k v acc fuel level rest Hrt Hwf Hfl Hfuel;
    inversion Hrt as [|? ? Hv Hrest]; subst;
    cbn [forallb fst snd] in Hwf, Hfl;
    apply andb_true_iff in Hwf as [Hwk Hwr];
    apply andb_true_iff in Hwk as [Hk Hwv];
    apply andb_true_iff in Hfl as [Hfv Hfr];
    cbn [map list_sum fold_right snd] in Hfuel;
    (destruct fuel as [|fuel]; [inversion Hfuel|]);
    cbn [object_loop dict_chunks];
    rewrite scanstring_encoded by exact Hk;
    change key_separator with [58; 32] at 1; cbn [app skip_ws];
    change (is_ws 58) with false; cbv iota; cbn [strip_prefix];
    change (58 =? 58) with true; cbv iota; cbn [skip_ws];
    change (is_ws 32) with true; cbv iota;
    destruct (iterencode_head v (S level) Hfv) as (c & t & E & Hw & _);
    rewrite E; cbn [app]; rewrite skip_ws_head by exact Hw;
    rewrite app_comm_cons, <- E; cbn [snd] in Hv.
  - rewrite (Hv (S level) _ fuel Hwv Hfv (delimited_newline_indent _ _))
      by lia.
    rewrite skip_ws_newline_indent. cbn [skip_ws].
    change (is_ws 125) with false. change (125 =? 125) with true. reflexivity.
  - rewrite <- !app_assoc.
    rewrite (Hv (S level) _ fuel Hwv Hfv (delimited_item_separator _ _))
      by lia.
    unfold item_separator at 1. cbn [app skip_ws].
    change (is_ws 44) with false. cbv iota. change (44 =? 125) with false.
    change (44 =? 44) with true. cbv iota.
    rewrite skip_ws_newline_indent.
    unfold encode_basestring_ascii. cbn [app skip_ws].
    change (is_ws 34) with false. cbv iota. cbn [strip_prefix].
    change (34 =? 34) with true. cbv iota.
    rewrite <- !app_assoc. cbn [app].
    replace (acc ++ (k, v) :: (k', v') :: d')
      with ((acc ++ [(k, v)]) ++ (k', v') :: d')
      by now rewrite <- app_assoc.
    apply (IH k' v' (acc ++ [(k, v)]) fuel level rest Hrest Hwr Hfr).
    cbn [map list_sum fold_right snd]. lia.
Qed.

Lemma scan_once_iterencode v : roundtrip_at v.
Proof.
  induction v as [| b | z | f | s | l IHl | d IHd] using pyval_nested_ind;
    intros level rest fuel Hwf Hfl Hr Hfuel;
    (destruct fuel as [|fuel]; [inversion Hfuel|]).
  - reflexivity.
  - destruct b; reflexivity.
  - now apply scan_once_int.
  - apply scan_once_float; [|exact Hr]. now apply float_roundtripsb_spec.
  - now apply scan_once_str.
  - destruct l as [|x xs]; [reflexivity|].
    cbn [wellformed floats_roundtrip weight] in Hwf, Hfl, Hfuel.
    cbn [iterencode iterencode_list list_chunks].
    rewrite <- !app_assoc. cbn [app scan_once].
    change (91 =? 34) with false. change (91 =? 123) with false.
    change (91 =? 91) with true. cbv iota.
    rewrite skip_ws_newline_indent.
    pose proof Hfl as Hfl'. cbn [forallb] in Hfl'.
    apply andb_true_iff in Hfl' as [Hfx _].
    destruct (iterencode_head x (S level) Hfx) as (c & t & E & Hw & H93).
    rewrite E. cbn [app]. rewrite skip_ws_head by exact Hw. rewrite H93.
    rewrite app_comm_cons, <- E.
    apply array_loop_chunks with (acc := @nil pyval);
      [exact IHl | exact Hwf | exact Hfl | lia].
  - destruct d as [|[k x] d']; [reflexivity|].
    cbn [wellformed floats_roundtrip weight] in Hwf, Hfl, Hfuel.
    apply andb_true_iff in Hwf as [Hdist Hwf].
    cbn [iterencode iterencode_dict dict_chunks].
    unfold encode_basestring_ascii at 1.
    cbn [app]. rewrite <- !app_assoc. cbn [app]. rewrite <- ?app_assoc.
    cbn [app scan_once].
    change (123 =? 34) with false. change (123 =? 123) with true. cbv iota.
    rewrite skip_ws_newline_indent. cbn [skip_ws].
    change (is_ws 34) with false. cbv iota.
    change (34 =? 125) with false. change (34 =? 34) with true. cbv iota.
    rewrite <- !app_assoc. cbn [app].
    rewrite <- (dict_of_pairs_distinct _ Hdist).
    apply object_loop_chunks with (acc := @nil (str * pyval));
      [exact IHd | exact Hwf | exact Hfl | lia].
Qed.

Lemma list_chunks_length enc sep l : forall buf,
  (1 <= length buf)%nat -> (1 <= length sep)%nat ->
  Forall (fun x => weight x <= length (enc x))%nat l ->
  (list_sum (map (fun x => S (weight x)) l)
   <= length (list_chunks enc sep l buf))%nat.
Proof.
  induction l as [|x l IH]; intros buf Hb Hs Hl;
    cbn [map list_sum fold_right list_chunks]; [lia|].
  inversion Hl as [|? ? Hx Hl']; subst.
  rewrite !length_app. specialize (IH sep Hs Hs Hl').
  unfold list_sum in IH. lia.
Qed.

Lemma dict_chunks_length enc sep (d : list (str * pyval)) : forall first,
  Forall (fun kv => weight (snd kv) <= length (enc (snd kv)))%nat d ->
  (list_sum (map (fun kv => S (weight (snd kv))) d)
   <= length (dict_chunks enc sep d first))%nat.
Proof.
  induction d as [|[k x] d IH]; intros first Hd;
    cbn [map list_sum fold_right dict_chunks snd]; [lia|].
  inversion Hd as [|? ? Hx Hd']; subst. cbn [snd] in Hx.
  rewrite !length_app. specialize (IH false Hd').
  unfold list_sum in IH. unfold encode_basestring_ascii.
  cbn [length]. lia.
Qed.

Lemma weight_le_length v : forall level,
  floats_roundtrip v = true ->
  (weight v <= length (iterencode v level))%nat.
Proof.
  induction v as [| b | z | f | s | l IHl | d IHd] using pyval_nested_ind;
    intros level Hfl;
    try (destruct (iterencode_head _ level Hfl) as (c & t & E & _);
         rewrite E; cbn [weight length]; lia).
  - destruct l as [|x xs]; [cbn; lia|].
    cbn [weight iterencode iterencode_list floats_roundtrip] in *.
    rewrite !length_app.
    assert (H : (list_sum (map (fun x => S (weight x)) (x :: xs))
                 <= length (list_chunks (fun v => iterencode v (S level))
                              (item_separator (S level)) (x :: xs)
                              (91%N :: newline_indent (S level))))%nat).
    { apply list_chunks_length.
      - cbn [length]. lia.
      - unfold item_separator. cbn [length]. lia.
      - rewrite forallb_forall in Hfl. rewrite Forall_forall in IHl |- *.
        intros y Hy. apply IHl; auto. }
    cbn [length]. lia.
  - destruct d as [|[k x] d']; [cbn; lia|].
    cbn [weight iterencode iterencode_dict floats_roundtrip] in *.
    cbn [length]. rewrite !length_app.
    assert (H : (list_sum (map (fun kv => S (weight (snd kv))) ((k, x) :: d'))
                 <= length (dict_chunks (fun v => iterencode v (S level))
                              (item_separator (S level)) ((k, x) :: d')
                              true))%nat).
    { apply dict_chunks_length.
      rewrite forallb_forall in Hfl. rewrite Forall_forall in IHd |- *.
      intros y Hy. apply IHd; auto. }
    lia.
Qed.

Lemma loads_dumps v :
  wellformed v = true -> floats_roundtrip v = true ->
  loads (dumps v) = Some v.
Proof.
  intros Hwf Hfl. unfold loads, dumps.
  destruct (iterencode_head v 0%nat Hfl) as (c & t & E & Hw & _).
  assert (Hskip : skip_ws (iterencode v 0%nat) = iterencode v 0%nat).
  { rewrite E. now apply skip_ws_head. }
  rewrite Hskip.
  pose proof (weight_le_length v 0%nat Hfl) as Hlen.
  pose proof (@scan_once_iterencode v 0%nat []
                (S (length (iterencode v 0%nat))) Hwf Hfl I) as Hscan.
  rewrite app_nil_r in Hscan. rewrite Hscan by lia. reflexivity.
Qed.

Lemma scalar_char_facts c :
  scalar_char c = true ->
  c < 1114112 /\ is_high_surrogate c = false /\ is_low_surrogate c = false.
Proof.
  unfold scalar_char, is_high_surrogate, is_low_surrogate. intros H.
  apply andb_true_iff in H as [H1 H2]. apply N.ltb_lt in H1.
  apply negb_true_iff, andb_false_iff in H2.
  split; [exact H1|].
  split; apply andb_false_iff;
    destruct H2 as [H2 | H2]; apply N.leb_gt in H2;
    try (left; apply N.leb_gt; lia); try (right; apply N.leb_gt; lia).
Qed.

Lemma hexval_bound c d : hexval c = Some d -> d < 16.
Proof.
  unfold hexval.
  destruct ((48 <=? c) && (c <=? 57)) eqn:E1.
  - apply andb_true_iff in E1 as [A B]. apply N.leb_le in A, B.
    intros [= <-]. lia.
  - destruct ((97 <=? c) && (c <=? 102)) eqn:E2.
    + apply andb_true_iff in E2 as [A B]. apply N.leb_le in A, B.
      intros [= <-]. lia.
    + destruct ((65 <=? c) && (c <=? 70)) eqn:E3; [|discriminate].
      apply andb_true_iff in E3 as [A B]. apply N.leb_le in A, B.
      intros [= <-]. lia.
Qed.

Lemma decode_uXXXX_spec s u rest :
  decode_uXXXX s = Some (u, rest) ->
  u < 65536 /\ exists a b c d, s = a :: b :: c :: d :: rest.
Proof.
  unfold decode_uXXXX.
  destruct s as [|a [|b [|c [|d s']]]]; try discriminate.
  destruct (hexval a) as [x1|] eqn:E1; [|discriminate].
  destruct (hexval b) as [x2|] eqn:E2; [|discriminate].
  destruct (hexval c) as [x3|] eqn:E3; [|discriminate].
  destruct (hexval d) as [x4|] eqn:E4; [|discriminate].
  intros [= <- <-].
  apply hexval_bound in E1, E2, E3, E4.
  split; [lia|]. now exists a, b, c, d.
Qed.

Lemma scalar_text_decode s u rest :
  scalar_text s = true -> decode_uXXXX s = Some (u, rest) ->
  scalar_text rest = true.
Proof.
  intros Hs Hd. apply decode_uXXXX_spec in Hd as [_ (a & b & c & d & ->)].
  unfold scalar_text in *. cbn [forallb] in Hs.
  repeat (apply andb_true_iff in Hs as [_ Hs]). exact Hs.
Qed.

Lemma scalar_text_strip p s rest :
  scalar_text s = true -> strip_prefix p s = Some rest ->
  scalar_text rest = true.
Proof.
  revert s. induction p as [|x p IH]; intros s Hs H.
  - cbn in H. now injection H as <-.
  - destruct s as [|y s]; cbn [strip_prefix] in H; [discriminate|].
    destruct (x =? y); [|discriminate].
    unfold scalar_text in Hs. cbn [forallb] in Hs.
    apply andb_true_iff in Hs as [_ Hs]. now apply (IH s).
Qed.

Lemma valid_str_cons c chunks :
  c < 1114112 ->
  (is_high_surrogate c = true ->
   forall c' t, chunks = c' :: t -> is_low_surrogate c' = false) ->
  valid_str chunks = true ->
  valid_str (c :: chunks) = true.
Proof.
  intros Hc Hh Hv. cbn [valid_str]. rewrite Hv, andb_true_r.
  apply andb_true_iff. split; [now apply N.ltb_lt|].
  apply negb_true_iff.
  destruct (is_high_surrogate c); [|reflexivity].
  destruct chunks as [|c' t]; [reflexivity|].
  cbn [andb]. now apply (Hh eq_refl c' t).
Qed.

Lemma BACKSLASH_bound esc ch : BACKSLASH esc = Some ch -> ch < 128.
Proof.
  unfold BACKSLASH.
  repeat match goal with
  | |- context [if ?b then _ else _] => destruct b; [intros [= <-]; lia|]
  end. discriminate.
Qed.

Lemma not_surrogate_small c :
  c < 55296 -> is_high_surrogate c = false /\ is_low_surrogate c = false.
Proof.
  intros H. unfold is_high_surrogate, is_low_surrogate.
  split; apply andb_false_iff; left; apply N.leb_gt; lia.
Qed.

Lemma not_surrogate_large c :
  65536 <= c -> is_high_surrogate c = false /\ is_low_surrogate c = false.
Proof.
  intros H. unfold is_high_surrogate, is_low_surrogate.
  split; apply andb_false_iff; right; apply N.leb_gt; lia.
Qed.

Lemma joined_pair_bound uni uni2 :
  is_high_surrogate uni = true -> is_low_surrogate uni2 = true ->
  65536 <= 65536 + N.lor (N.shiftl (uni - 55296) 10) (uni2 - 56320)
  /\ 65536 + N.lor (N.shiftl (uni - 55296) 10) (uni2 - 56320) < 1114112.
Proof.
  unfold is_high_surrogate, is_low_surrogate. intros Hh Hl.
  apply andb_true_iff in Hh as [H1 H2]. apply andb_true_iff in Hl as [L1 L2].
  apply N.leb_le in H1, H2, L1, L2.
  rewrite lor_shiftl_low by (change (2 ^ 10) with 1024; lia).
  change (2 ^ 10) with 1024. lia.
Qed.

Lemma scalar_text_cons c s :
  scalar_text (c :: s) = true -> scalar_char c = true /\ scalar_text s = true.
Proof. unfold scalar_text. cbn [forallb]. apply andb_true_iff. Qed.

Lemma scanstring_loop_valid fuel : forall s out rest,
  scalar_text s = true ->
  scanstring_loop fuel s = Some (out, rest) ->
  valid_str out = true /\ scalar_text rest = true /\ low_head_from s out.
Proof.
  induction fuel as [|fuel IH]; intros s out rest Hs H; [discriminate|].
  cbn [scanstring_loop] in H.
  destruct s as [|c s1]; [discriminate|].
  apply scalar_text_cons in Hs as [Hc Hs1].
  destruct (c =? 34) eqn:E34.
  { injection H as <- <-. repeat split; auto. intros ? ? [=]. }
  destruct (c =? 92) eqn:E92.
  - destruct s1 as [|esc s2]; [discriminate|].
    apply scalar_text_cons in Hs1 as [_ Hs2].
    apply N.eqb_eq in E92. subst c.
    destruct (esc =? 117) eqn:Eesc; cbn [negb] in H.
    + apply N.eqb_eq in Eesc. subst esc.
      destruct (decode_uXXXX s2) as [[uni s3]|] eqn:Ed; [|discriminate].
      pose proof (scalar_text_decode s2 Hs2 Ed) as Hs3.
      destruct (decode_uXXXX_spec s2 Ed) as [Huni _].
      cbv zeta in H.
      assert (Hhead : forall chunks,
                low_head_from (92 :: 117 :: s2) (uni :: chunks)).
      { intros chunks c0 out' [= <- <-] _. exists s2, s3. now split. }
      destruct (is_high_surrogate uni) eqn:Eh.
      * destruct (strip_prefix [92; 117] s3) as [s4|] eqn:Es.
        -- pose proof (scalar_text_strip [92; 117] s3 Hs3 Es) as Hs4.
           destruct (decode_uXXXX s4) as [[uni2 s5]|] eqn:Ed2; [|discriminate].
           destruct (is_low_surrogate uni2) eqn:El.
           ++ destruct (scanstring_loop fuel s5) as [[chunks s'']|] eqn:Er;
                [|discriminate].
              assert (Hout : out = (65536 + N.lor (N.shiftl (uni - 55296) 10)
                                                  (uni2 - 56320)) :: chunks
                             /\ rest = s'')
                by (injection H as <- <-; split; reflexivity).
              destruct Hout as [-> ->]. clear H.
              pose proof (scalar_text_decode s4 Hs4 Ed2) as Hs5.
              destruct (IH s5 chunks s'' Hs5 Er) as (Hv & Hr & _).
              destruct (joined_pair_bound uni uni2 Eh El) as [Hlo Hhi].
              destruct (not_surrogate_large Hlo) as [Hnh Hnl].
              repeat split; auto.
              ** apply valid_str_cons; [exact Hhi | | exact Hv]. intros Hx.
                 congruence.
              ** intros c0 out' E Hx. congruence.
           ++ destruct (scanstring_loop fuel s3) as [[chunks s'']|] eqn:Er;
                [|discriminate].
              injection H as <- <-.
              destruct (IH s3 chunks s'' Hs3 Er) as (Hv & Hr & Hl).
              repeat split; auto.
              apply valid_str_cons; auto; [lia|].
              intros _ c' t -> . destruct (is_low_surrogate c') eqn:Ec';
                [|reflexivity].
              destruct (Hl c' t eq_refl Ec') as (s4' & s5' & A & B).
              rewrite Es in A. injection A as <-. rewrite Ed2 in B.
              injection B as <- <-. congruence.
        -- destruct (scanstring_loop fuel s3) as [[chunks s'']|] eqn:Er;
             [|discriminate].
           injection H as <- <-.
           destruct (IH s3 chunks s'' Hs3 Er) as (Hv & Hr & Hl).
           repeat split; auto.
           apply valid_str_cons; auto; [lia|].
           intros _ c' t -> . destruct (is_low_surrogate c') eqn:Ec';
             [|reflexivity].
           destruct (Hl c' t eq_refl Ec') as (s4' & s5' & A & B).
           rewrite Es in A. discriminate.
      * destruct (scanstring_loop fuel s3) as [[chunks s'']|] eqn:Er;
          [|discriminate].
        injection H as <- <-.
        destruct (IH s3 chunks s'' Hs3 Er) as (Hv & Hr & Hl).
        repeat split; auto.
        apply valid_str_cons; auto; [lia|]. intros Hx. congruence.
    + destruct (BACKSLASH esc) as [ch|] eqn:Eb; [|discriminate].
      destruct (scanstring_loop fuel s2) as [[chunks s'']|] eqn:Er;
        [|discriminate].
      injection H as <- <-.
      destruct (IH s2 chunks s'' Hs2 Er) as (Hv & Hr & _).
      pose proof (BACKSLASH_bound esc Eb) as Hb.
      destruct (@not_surrogate_small ch ltac:(lia)) as [Hnh Hnl].
      repeat split; auto.
      * apply valid_str_cons; auto; [lia|]. intros Hx. congruence.
      * intros c0 out' E Hx. congruence.
  - destruct (c <? 32); [discriminate|].
    destruct (scanstring_loop fuel s1) as [[chunks s'']|] eqn:Er;
      [|discriminate].
    injection H as <- <-.
    destruct (IH s1 chunks s'' Hs1 Er) as (Hv & Hr & _).
    destruct (scalar_char_facts c Hc) as (Hlt & Hnh & Hnl).
    repeat split; auto.
    + apply valid_str_cons; auto. intros Hx. congruence.
    + intros c0 out' E Hx. congruence.
Qed.

Lemma scanstring_valid s out rest :
  scalar_text s = true -> scanstring s = Some (out, rest) ->
  valid_str out = true /\ scalar_text rest = true.
Proof.
  intros Hs H. unfold scanstring in H.
  destruct (scanstring_loop_valid (length s) s Hs H) as (A & B & _). auto.
Qed.

Lemma scalar_text_skip_ws s :
  scalar_text s = true -> scalar_text (skip_ws s) = true.
Proof.
  induction s as [|c s IH]; intros H; [exact H|].
  cbn [skip_ws]. destruct (is_ws c); [|exact H].
  apply scalar_text_cons in H as [_ H]. now apply IH.
Qed.

Lemma scalar_text_app_r a b :
  scalar_text (a ++ b) = true -> scalar_text b = true.
Proof.
  unfold scalar_text. rewrite forallb_app. intros H.
  now apply andb_true_iff in H as [_ H].
Qed.

Lemma dict_set_entries (d : dict) k v :
  forallb entry_ok d = true -> entry_ok (k, v) = true ->
  forallb entry_ok (dict_set d k v) = true.
Proof.
  intros Hd Hkv. induction d as [|[k' v'] d IH]; cbn [dict_set forallb].
  - now rewrite Hkv.
  - cbn [forallb] in Hd. apply andb_true_iff in Hd as [Hk' Hd].
    destruct (str_eqb k' k) eqn:E; cbn [forallb].
    + apply str_eqb_eq in E. subst k'. now rewrite Hkv, Hd.
    + now rewrite Hk', IH.
Qed.

Lemma dict_set_keys_in (d : dict) k v x :
  existsb (str_eqb x) (map fst (dict_set d k v))
  = existsb (str_eqb x) (map fst d) || str_eqb x k.
Proof.
  induction d as [|[k' v'] d IH]; cbn [dict_set map fst existsb].
  - now rewrite orb_false_r.
  - destruct (str_eqb k' k) eqn:E; cbn [map fst existsb].
    + apply str_eqb_eq in E. subst k'.
      destruct (str_eqb x k); [reflexivity|]. now rewrite !orb_false_r.
    + rewrite IH. now rewrite orb_assoc.
Qed.

Lemma dict_set_distinct (d : dict) k v :
  distinct (map fst d) = true -> distinct (map fst (dict_set d k v)) = true.
Proof.
  induction d as [|[k' v'] d IH]; cbn [dict_set map fst distinct];
    [reflexivity|].
  intros H. apply andb_true_iff in H as [Hn Hd].
  destruct (str_eqb k' k) eqn:E; cbn [map fst distinct].
  - now rewrite Hn, Hd.
  - rewrite dict_set_keys_in, E, orb_false_r, Hn. now apply IH.
Qed.

Lemma dict_of_pairs_wellformed pairs :
  forallb entry_ok pairs = true ->
  wellformed (PDict (dict_of_pairs pairs)) = true.
Proof.
  intros Hp. cbn [wellformed].
  change (distinct (map fst (dict_of_pairs pairs))
          && forallb entry_ok (dict_of_pairs pairs) = true).
  unfold dict_of_pairs, dict_update.
  assert (G : forall acc : dict,
            distinct (map fst acc) = true -> forallb entry_ok acc = true ->
            distinct (map fst (fold_left
                        (fun a kv => dict_set a (fst kv) (snd kv)) pairs acc))
            && forallb entry_ok
                 (fold_left (fun a kv => dict_set a (fst kv) (snd kv))
                    pairs acc) = true).
  { induction pairs as [|[k v] pairs IH]; intros acc Hd Ha; cbn [fold_left].
    - now rewrite Hd, Ha.
    - cbn [forallb] in Hp. apply andb_true_iff in Hp as [Hkv Hp].
      apply IH; [exact Hp| |].
      + now apply dict_set_distinct.
      + now apply dict_set_entries. }
  now apply G.
Qed.

Lemma scan_number_wellformed s v rest :
  scalar_text s = true -> scan_number s = Some (v, rest) ->
  wellformed v = true /\ scalar_text rest = true.
Proof.
  intros Hs. unfold scan_number.
  destruct (match_number s) as [[[[i fr] ex] r]|] eqn:Em.
  - apply match_number_split in Em. rewrite Em in Hs.
    do 3 apply scalar_text_app_r in Hs.
    destruct (str_empty fr && str_empty ex); intros [= <- <-]; auto.
  - unfold scan_constant.
    repeat match goal with
    | |- context [strip_prefix ?p s] =>
        let E := fresh "E" in
        destruct (strip_prefix p s) eqn:E;
        [intros [= <- <-]; split; [reflexivity|];
         exact (scalar_text_strip p s Hs E)|]
    end.
    discriminate.
Qed.

Lemma scan_wellformed fuel :
  (forall s v rest,
     scalar_text s = true -> scan_once fuel s = Some (v, rest) ->
     wellformed v = true /\ scalar_text rest = true)
  /\ (forall s acc v rest,
        scalar_text s = true -> forallb wellformed acc = true ->
        array_loop fuel s acc = Some (v, rest) ->
        wellformed v = true /\ scalar_text rest = true)
  /\ (forall s acc v rest,
        scalar_text s = true -> forallb entry_ok acc = true ->
        object_loop fuel s acc = Some (v, rest) ->
        wellformed v = true /\ scalar_text rest = true).
Proof.
  induction fuel as [|fuel (IHs & IHa & IHo)].
  { repeat split; intros; discriminate. }
  split; [|split].
  - intros s v rest Hs H. cbn [scan_once] in H.
    destruct s as [|c s1]; [discriminate|].
    pose proof Hs as Hs'. apply scalar_text_cons in Hs' as [_ Hs1].
    pose proof (scalar_text_skip_ws s1 Hs1) as Hw.
    destruct (c =? 34).
    { destruct (scanstring s1) as [[out r]|] eqn:E; [|discriminate].
      injection H as <- <-. now apply (scanstring_valid s1). }
    destruct (c =? 123).
    { destruct (skip_ws s1) as [|c' r]; [discriminate|].
      apply scalar_text_cons in Hw as [_ Hr].
      destruct (c' =? 125); [injection H as <- <-; auto|].
      destruct (c' =? 34); [|discriminate].
      now apply (IHo r []). }
    destruct (c =? 91).
    { destruct (skip_ws s1) as [|c' r] eqn:E; [discriminate|].
      destruct (c' =? 93).
      - apply scalar_text_cons in Hw as [_ Hr]. injection H as <- <-. auto.
      - now apply (IHa (c' :: r) []). }
    repeat match type of H with
    | context [strip_prefix ?p (c :: s1)] =>
        let E := fresh "E" in
        destruct (strip_prefix p (c :: s1)) eqn:E;
        [injection H as <- <-; split; [reflexivity|];
         exact (scalar_text_strip p (c :: s1) Hs E)|]
    end.
    now apply (scan_number_wellformed (c :: s1)).
  - intros s acc v rest Hs Hacc H. cbn [array_loop] in H.
    destruct (scan_once fuel s) as [[value s1]|] eqn:E; [|discriminate].
    destruct (IHs s value s1 Hs E) as [Hv Hs1].
    pose proof (scalar_text_skip_ws s1 Hs1) as Hw.
    assert (Hacc' : forallb wellformed (acc ++ [value]) = true).
    { rewrite forallb_app, Hacc. cbn [forallb]. now rewrite Hv. }
    destruct (skip_ws s1) as [|c s2]; [discriminate|].
    apply scalar_text_cons in Hw as [_ Hs2].
    destruct (c =? 93); [injection H as <- <-; auto|].
    destruct (c =? 44); [|discriminate].
    apply (IHa (skip_ws s2) (acc ++ [value])); auto.
    now apply scalar_text_skip_ws.
  - intros s acc v rest Hs Hacc H. cbn [object_loop] in H.
    destruct (scanstring s) as [[key s1]|] eqn:Ek; [|discriminate].
    destruct (scanstring_valid s Hs Ek) as [Hkey Hs1].
    pose proof (scalar_text_skip_ws s1 Hs1) as Hw1.
    destruct (strip_prefix [58] (skip_ws s1)) as [s2|] eqn:E58; [|discriminate].
    pose proof (scalar_text_strip [58] (skip_ws s1) Hw1 E58) as Hs2.
    destruct (scan_once fuel (skip_ws s2)) as [[value s3]|] eqn:E;
      [|discriminate].
    destruct (IHs (skip_ws s2) value s3 (scalar_text_skip_ws s2 Hs2) E)
      as [Hv Hs3].
    pose proof (scalar_text_skip_ws s3 Hs3) as Hw3.
    assert (Hacc' : forallb entry_ok (acc ++ [(key, value)]) = true).
    { rewrite forallb_app, Hacc. unfold entry_ok. cbn [forallb fst snd].
      now rewrite Hkey, Hv. }
    cbv zeta in H.
    destruct (skip_ws s3) as [|c s4]; [discriminate|].
    apply scalar_text_cons in Hw3 as [_ Hs4].
    destruct (c =? 125).
    { injection H as <- <-. split; [|exact Hs4].
      now apply dict_of_pairs_wellformed. }
    destruct (c =? 44); [|discriminate].
    destruct (strip_prefix [34] (skip_ws s4)) as [s5|] eqn:E34; [|discriminate].
    apply (IHo s5 (acc ++ [(key, value)])); auto.
    exact (scalar_text_strip [34] (skip_ws s4)
             (scalar_text_skip_ws s4 Hs4) E34).
Qed.

Lemma loads_wellformed document body :
  scalar_text document = true -> loads document = Some body ->
  wellformed body = true.
Proof.
  intros Hs H. unfold loads in H.
  destruct (scan_once (S (length document)) (skip_ws document))
    as [[obj rest]|] eqn:E; [|discriminate].
  destruct (skip_ws rest); [|discriminate]. injection H as <-.
  destruct (scan_wellformed (S (length document))) as (IHs & _).
  now apply (IHs (skip_ws document) obj rest (scalar_text_skip_ws _ Hs) E).
Qed.

End RoundTrip.

(** ** Dispatch *)

Section Properties.
Context {RT : Runtime}.
Variable network : request -> http_outcome.
Variable notion : NotionMCPServer.

Lemma call_tool_raised name arguments sent e :
  dispatch network notion name arguments = (sent, inl e) ->
  call_tool network notion name arguments
  = (sent, [text_content (dumps (failure e))]).
Proof. unfold call_tool. now intros ->. Qed.

Lemma call_tool_returned name arguments sent result :
  dispatch network notion name arguments = (sent, inr result) ->
  call_tool network notion name arguments
  = (sent, [text_content (dumps result)]).
Proof. unfold call_tool. now intros ->. Qed.

Lemma dispatch_unknown name arguments :
  ~ In name tool_names ->
  dispatch network notion name arguments
  = raise (ValueError (lit "Unknown tool: " ++ name)).
Proof.
  intros Hname. unfold dispatch.
  repeat match goal with
  | |- context [str_eqb name ?l] =>
      let E := fresh "E" in
      destruct (str_eqb name l) eqn:E;
      [ apply str_eqb_eq in E; exfalso; apply Hname; rewrite E;
        unfold tool_names; simpl; tauto | ]
  end.
  reflexivity.
Qed.

(** C5: a name that is not in the catalog makes the handler return the
    failure Result with message [Unknown tool: name] and type [ValueError];
    the dispatch is the [raise] itself, so no client method is called, and
    the list of requests issued is empty. *)
Theorem unknown_tool_failure name arguments :
  ~ In name tool_names ->
  dispatch network notion name arguments
  = raise (ValueError (lit "Unknown tool: " ++ name))
  /\ call_tool network notion name arguments
     = ([], [text_content
               (dumps (PDict [(lit "error", PStr (lit "Unknown tool: " ++ name));
                              (lit "type", PStr (lit "ValueError"))]))]).
Proof.
  intros Hname. split.
  - now apply dispatch_unknown.
  - apply call_tool_raised with (e := ValueError (lit "Unknown tool: " ++ name)).
    now apply dispatch_unknown.
Qed.

Lemma subscript_missing (d : dict) k :
  has_key d k = false -> subscript d k = raise (KeyError k).
Proof.
  unfold has_key, subscript. destruct (dict_lookup d k); [discriminate|reflexivity].
Qed.

Lemma subscript_present (d : dict) k :
  has_key d k = true -> exists v, dict_lookup d k = Some v /\ subscript d k = ret v.
Proof.
  unfold has_key, subscript. destruct (dict_lookup d k) as [v|]; [|discriminate].
  intros _. now exists v.
Qed.

Lemma dispatch_missing t arguments k :
  In t list_tools ->
  first_missing (required_keys t) arguments = Some k ->
  dispatch network notion (name t) arguments = raise (KeyError k).
Proof.
  intros Ht Hk. unfold list_tools in Ht. simpl in Ht.
  repeat (destruct Ht as [<- | Ht]); try contradiction;
    unfold first_missing in Hk; cbn in Hk;
    repeat match type of Hk with
    | context [has_key arguments ?key] =>
        let E := fresh "E" in
        destruct (has_key arguments key) eqn:E; cbn in Hk
    end;
    try discriminate; injection Hk as <-;
    unfold dispatch; cbn;
    repeat match goal with
    | E : has_key arguments ?key = true |- _ =>
        apply subscript_present in E; destruct E as (? & _ & E)
    | E : has_key arguments ?key = false |- _ =>
        apply subscript_missing in E
    end;
    repeat match goal with
    | E : subscript arguments _ = _ |- _ => cbn in E; rewrite E; clear E
    end;
    reflexivity.
Qed.

(** C4: when a key that the schema of a catalogued tool lists under
    [required] is absent from the arguments, the handler returns the failure
    Result of the [KeyError] for the first such key: type [KeyError], message
    the key between single quotes; no request is issued. *)
Theorem missing_argument_failure t arguments k :
  In t list_tools ->
  first_missing (required_keys t) arguments = Some k ->
  call_tool network notion (name t) arguments
  = ([], [text_content
            (dumps (PDict [(lit "error", PStr (39%N :: k ++ [39%N]));
                           (lit "type", PStr (lit "KeyError"))]))]).
Proof.
  intros Ht Hk.
  apply call_tool_raised with (e := KeyError k).
  now apply dispatch_missing.
Qed.


(** ** One request per method *)

Lemma exchange self method url json :
  (response <- client_request network self method url json ;;
   raise_for_status response ;;;
   response_json response)
  = ([request_of self method url json],
     settle (network (request_of self method url json))).
Proof.
  unfold client_request, request_of, settle, bind, raise_for_status,
    response_json, ret, raise.
  destruct (network _) as [r | c m | c m]; try reflexivity.
  destruct (is_success r); [|reflexivity].
  destruct (loads (text r)); reflexivity.
Qed.

Lemma fst_call_tool name arguments :
  fst (call_tool network notion name arguments)
  = fst (dispatch network notion name arguments).
Proof.
  unfold call_tool.
  destruct (dispatch network notion name arguments) as [sent [e | v]];
    reflexivity.
Qed.

Lemma search_unfold query filter_type :
  search network notion query filter_type
  = let payload : dict :=
      if truthy query then [(lit "query", query)] else [] in
    let payload :=
      if truthy filter_type then
        dict_set payload (lit "filter")
          (PDict [(lit "property", PStr (lit "object"));
                  (lit "value", filter_type)])
      else payload in
    let rq := request_of notion POST (NOTION_API_BASE ++ lit "/search")
                (Some (PDict payload)) in
    ([rq], settle (network rq)).
Proof. unfold search. cbv zeta. apply exchange. Qed.

(** C2: the search tool called with no arguments posts an empty body (no
    [query], no [filter]); called with query [x] and filter_type [page] it
    posts the body with [query] and the [filter] clause on [object]. *)
Theorem search_request_payload :
  fst (call_tool network notion (lit "search_notion") [])
  = [request_of notion POST (NOTION_API_BASE ++ lit "/search")
       (Some (PDict []))]
  /\ has_key [] (lit "query") = false
  /\ has_key [] (lit "filter") = false
  /\ fst (call_tool network notion (lit "search_notion")
            [(lit "query", PStr (lit "x"));
             (lit "filter_type", PStr (lit "page"))])
     = [request_of notion POST (NOTION_API_BASE ++ lit "/search")
          (Some (PDict [(lit "query", PStr (lit "x"));
                        (lit "filter",
                         PDict [(lit "property", PStr (lit "object"));
                                (lit "value", PStr (lit "page"))])]))].
Proof.
  repeat split.
  - rewrite fst_call_tool. unfold dispatch.
    change (str_eqb (lit "search_notion") (lit "search_notion")) with true.
    cbv iota. rewrite search_unfold. reflexivity.
  - rewrite fst_call_tool. unfold dispatch.
    change (str_eqb (lit "search_notion") (lit "search_notion")) with true.
    cbv iota. rewrite search_unfold. reflexivity.
Qed.


(** ** Request bodies of [create_page] and [query_database] *)

Lemma create_page_unfold parent_id title properties extra :
  supplied_mapping properties extra ->
  create_page network notion parent_id title properties
  = let rq := request_of notion POST (NOTION_API_BASE ++ lit "/pages")
                (Some (PDict [(lit "parent",
                               PDict [(lit "page_id", parent_id)]);
                              (lit "properties",
                               PDict (dict_update
                                        (generated_properties title)
                                        extra))])) in
    ([rq], settle (network rq)).
Proof.
  intros [-> | [-> ->]]; unfold create_page; cbv zeta.
  - destruct extra as [|kv extra]; simpl truthy; cbv iota.
    + rewrite bind_ret. apply exchange.
    + unfold properties_update. rewrite bind_ret. apply exchange.
  - simpl truthy. cbv iota. rewrite bind_ret. apply exchange.
Qed.

(** C3: for a [create_page] invocation with [parent_id] P and [title] T,
    whose [properties] argument is a mapping or absent, the posted body has
    [parent.page_id == P]; every entry of the supplied mapping is found
    under [properties]; the generated title entry, whose
    [title[0].text.content] is T, is there unless the supplied mapping has a
    key [title]; and [properties] holds nothing else. *)
Theorem create_page_payload arguments P T extra :
  dict_lookup arguments (lit "parent_id") = Some P ->
  dict_lookup arguments (lit "title") = Some T ->
  supplied_mapping (dict_get arguments (lit "properties")) extra ->
  distinct_keys extra ->
  exists body,
    fst (call_tool network notion (lit "create_page") arguments)
    = [request_of notion POST (NOTION_API_BASE ++ lit "/pages") (Some body)]
    /\ path_get body [Key (lit "parent"); Key (lit "page_id")] = Some P
    /\ (dict_lookup extra (lit "title") = None ->
        path_get body [Key (lit "properties"); Key (lit "title");
                       Key (lit "title"); Index 0; Key (lit "text");
                       Key (lit "content")] = Some T)
    /\ (forall k v, dict_lookup extra k = Some v ->
        path_get body [Key (lit "properties"); Key k] = Some v)
    /\ (forall k, path_get body [Key (lit "properties"); Key k] <> None ->
        k = lit "title" \/ has_key extra k = true).
Proof.
  intros HP HT Hextra Hnd.
  eexists. split; [|split; [|split; [|split]]].
  - rewrite fst_call_tool. unfold dispatch.
    change (str_eqb (lit "create_page") (lit "search_notion")) with false.
    change (str_eqb (lit "create_page") (lit "get_page")) with false.
    change (str_eqb (lit "create_page") (lit "create_page")) with true.
    cbv iota. unfold subscript. rewrite HP, HT. rewrite !bind_ret.
    rewrite (create_page_unfold _ _ Hextra). reflexivity.
  - reflexivity.
  - intros Hnone.
    change (match dict_lookup (dict_update (generated_properties T) extra)
                    (lit "title") with
            | Some v' => path_get v' [Key (lit "title"); Index 0;
                                      Key (lit "text"); Key (lit "content")]
            | None => None
            end = Some T).
    rewrite dict_lookup_update_absent by exact Hnone. reflexivity.
  - intros k v Hk.
    change (match dict_lookup (dict_update (generated_properties T) extra) k
            with Some v' => Some v' | None => None end = Some v).
    erewrite dict_lookup_update_present; [reflexivity | exact Hnd | exact Hk].
  - intros k Hk.
    change (match dict_lookup (dict_update (generated_properties T) extra) k
            with Some v' => Some v' | None => None end <> None) in Hk.
    unfold has_key. destruct (dict_lookup extra k) as [v|] eqn:E.
    + now right.
    + left. rewrite dict_lookup_update_absent in Hk by exact E.
      unfold generated_properties in Hk. simpl in Hk.
      destruct (str_eqb (lit "title") k) eqn:Ek.
      * apply str_eqb_eq in Ek. now subst.
      * exfalso. apply Hk. cbn in Ek. now rewrite Ek.
Qed.

Lemma query_database_unfold database_id filter_obj sorts :
  query_database network notion database_id filter_obj sorts
  = let payload : dict :=
      (if truthy filter_obj then [(lit "filter", filter_obj)] else [])
        ++ (if truthy sorts then [(lit "sorts", sorts)] else []) in
    let rq := request_of notion POST
                (NOTION_API_BASE ++ lit "/databases/"
                   ++ format_value database_id ++ lit "/query")
                (Some (PDict payload)) in
    ([rq], settle (network rq)).
Proof.
  unfold query_database. cbv zeta.
  rewrite exchange.
  destruct (truthy filter_obj), (truthy sorts); reflexivity.
Qed.

(** C10, as the code has it: for every [query_database] invocation that
    names its database, the posted body has a [filter] key exactly when the
    supplied [filter] is truthy and a [sorts] key exactly when the supplied
    [sorts] is truthy, each with the supplied value whatever its type, and
    no other key; and the method does with an empty mapping or an empty list
    what it does with [None], the value of an absent argument. *)
Theorem query_database_optional_arguments arguments database_id :
  dict_lookup arguments (lit "database_id") = Some database_id ->
  let filter_obj := dict_get arguments (lit "filter") in
  let sorts := dict_get arguments (lit "sorts") in
  (exists payload,
     fst (call_tool network notion (lit "query_database") arguments)
     = [request_of notion POST
          (NOTION_API_BASE ++ lit "/databases/"
             ++ format_value database_id ++ lit "/query")
          (Some (PDict payload))]
     /\ has_key payload (lit "filter") = truthy filter_obj
     /\ has_key payload (lit "sorts") = truthy sorts
     /\ (truthy filter_obj = true ->
         dict_lookup payload (lit "filter") = Some filter_obj)
     /\ (truthy sorts = true ->
         dict_lookup payload (lit "sorts") = Some sorts)
     /\ (forall k, has_key payload k = true ->
         k = lit "filter" \/ k = lit "sorts"))
  /\ (forall sorts,
        query_database network notion database_id (PDict []) sorts
        = query_database network notion database_id PNone sorts)
  /\ (forall filter_obj,
        query_database network notion database_id filter_obj (PList [])
        = query_database network notion database_id filter_obj PNone).
Proof.
  intros Hid filter_obj sorts. split; [|split].
  - eexists. split.
    + rewrite fst_call_tool. unfold dispatch.
      change (str_eqb (lit "query_database") (lit "search_notion")) with false.
      change (str_eqb (lit "query_database") (lit "get_page")) with false.
      change (str_eqb (lit "query_database") (lit "create_page")) with false.
      change (str_eqb (lit "query_database") (lit "update_page")) with false.
      change (str_eqb (lit "query_database") (lit "query_database")) with true.
      cbv iota. unfold subscript. rewrite Hid, bind_ret.
      rewrite query_database_unfold. reflexivity.
    + fold filter_obj sorts.
      destruct (truthy filter_obj), (truthy sorts); cbn [app];
        repeat split; try reflexivity; try discriminate;
        intros k; unfold has_key; cbn [dict_lookup];
        try discriminate;
        repeat match goal with
        | |- context [str_eqb ?a k] =>
            let E := fresh "E" in
            destruct (str_eqb a k) eqn:E;
            [apply str_eqb_eq in E; subst; intros _; auto|]
        | |- context [str_eqb k ?a] =>
            let E := fresh "E" in
            destruct (str_eqb k a) eqn:E;
            [apply str_eqb_eq in E; subst; intros _; auto|]
        end; try discriminate.
  - intros sorts'. rewrite !query_database_unfold. reflexivity.
  - intros filter_obj'. rewrite !query_database_unfold. reflexivity.
Qed.


(** ** The shape of every invocation *)

Lemma dispatch_shape name arguments :
  (exists e, dispatch network notion name arguments = raise e)
  \/ (exists method url json,
        dispatch network notion name arguments
        = ([request_of notion method url json],
           settle (network (request_of notion method url json)))).
Proof.
  unfold dispatch.
  repeat match goal with
  | |- context [if str_eqb name ?l then _ else _] => destruct (str_eqb name l)
  end;
  unfold subscript;
  repeat match goal with
  | |- context [dict_lookup arguments ?k] =>
      destruct (dict_lookup arguments k); [rewrite bind_ret|]
  end;
  try (left; eexists; reflexivity).
  - right. rewrite search_unfold. cbv zeta. eauto.
  - right. unfold get_page. rewrite exchange. eauto.
  - unfold create_page. cbv zeta.
    destruct (truthy (dict_get arguments (lit "properties"))).
    + destruct (dict_get arguments (lit "properties")) as [| | | | |seq|other];
        unfold properties_update;
        try (left; eexists; reflexivity).
      * destruct (update_from_sequence _ seq) as [e|d'].
        -- left. eexists. reflexivity.
        -- right. rewrite bind_ret, exchange. eauto.
      * right. rewrite bind_ret, exchange. eauto.
    + right. rewrite bind_ret, exchange. eauto.
  - right. unfold update_page. cbv zeta. rewrite exchange. eauto.
  - right. rewrite query_database_unfold. cbv zeta. eauto.
  - right. unfold get_block_children. rewrite exchange. eauto.
  - right. unfold append_block_children. cbv zeta. rewrite exchange. eauto.
Qed.

(** C1: whatever the name and the arguments, the handler returns a list of
    exactly one item of type [text], whose text is [json.dumps(..., indent=2)]
    of either the body decoded from a successful response to the one request
    issued, or of an object with the two keys [error] and [type], in this
    order.  The handler is a total function: no exception leaves it. *)
Theorem call_tool_single_text_result name arguments :
  exists result,
    snd (call_tool network notion name arguments)
    = [ {| type := lit "text"; content_text := dumps result |} ]
    /\ ((exists rq r,
           fst (call_tool network notion name arguments) = [rq]
           /\ network rq = Responded r
           /\ is_success r = true
           /\ loads (text r) = Some result)
        \/ (exists message kind,
              result = PDict [(lit "error", PStr message);
                              (lit "type", PStr kind)])).
Proof.
  unfold call_tool.
  destruct (dispatch_shape name arguments) as [[e ->] | (method & url & json & ->)].
  - exists (failure e). split; [reflexivity|]. right.
    exists (exn_str e), (type_name e). reflexivity.
  - destruct (settle _) as [e | v] eqn:E.
    + exists (failure e). split; [reflexivity|]. right.
      exists (exn_str e), (type_name e). reflexivity.
    + exists v. split; [reflexivity|]. left.
      unfold settle in E.
      destruct (network (request_of notion method url json)) as [r|c m|c m] eqn:En;
        try discriminate.
      destruct (is_success r) eqn:Es; [|discriminate].
      destruct (loads (text r)) as [v'|] eqn:El; [|discriminate].
      injection E as <-.
      exists (request_of notion method url json), r. auto.
Qed.

Lemma transport_error_name_distinct c :
  transport_error_name c <> lit "HTTPStatusError".
Proof. destruct c; discriminate. Qed.

Lemma status_message_has_code r :
  contains (intstr (status_code r)) (status_message r) = true.
Proof.
  unfold status_message.
  rewrite (app_assoc (error_type r)).
  apply contains_app.
Qed.

(** C6, as the code has it: when an invocation has issued its request and
    the answer has a status outside 200..299, the method raises an
    [HTTPStatusError] that holds the response, hence its status code and body
    text; the failure Result has type [HTTPStatusError] and its message is
    the one [raise_for_status] builds, which contains the status code.  When
    the transport fails, the failure Result carries the message of the
    transport error and, as type, the name of its class, which is never
    [HTTPStatusError]. *)
Theorem upstream_failure_results name arguments rq :
  fst (call_tool network notion name arguments) = [rq] ->
  (forall r, network rq = Responded r -> is_success r = false ->
     snd (dispatch network notion name arguments)
     = inl (HTTPStatusError (status_message r) r)
     /\ snd (call_tool network notion name arguments)
        = [text_content
             (dumps (PDict [(lit "error", PStr (status_message r));
                            (lit "type", PStr (lit "HTTPStatusError"))]))]
     /\ contains (intstr (status_code r)) (status_message r) = true)
  /\ (forall c m, network rq = NetworkFailure c m ->
        snd (call_tool network notion name arguments)
        = [text_content
             (dumps (PDict [(lit "error", PStr m);
                            (lit "type", PStr (transport_error_name c))]))]
        /\ transport_error_name c <> lit "HTTPStatusError").
Proof.
  intros Hsent. rewrite fst_call_tool in Hsent. unfold call_tool.
  destruct (dispatch_shape name arguments)
    as [[e He] | (method & url & json & He)]; rewrite He in Hsent |- *.
  - discriminate.
  - injection Hsent as <-. split.
    + intros r Hr Hs. unfold settle. rewrite Hr, Hs.
      repeat split. apply status_message_has_code.
    + intros c m Hc. unfold settle. rewrite Hc.
      split; [reflexivity|apply transport_error_name_distinct].
Qed.

(** ** The catalog and startup *)

Lemma dispatch_known_on_empty name :
  In name tool_names ->
  dispatch network notion name []
  <> raise (ValueError (lit "Unknown tool: " ++ name)).
Proof.
  unfold tool_names. simpl.
  intros H. repeat (destruct H as [<- | H]); try contradiction;
    unfold dispatch; cbn [str_eqb lit]; try discriminate.
  rewrite search_unfold. discriminate.
Qed.

(** C7: the names of the catalog are the seven names in the order of their
    declaration; each of them names exactly one descriptor; they are exactly
    the names on which the handler does not answer [Unknown tool]; and any
    two processes that serve publish the same list, which is [list_tools]. *)
Theorem catalog_fixed :
  tool_names = declared_names
  /\ (forall n, In n declared_names ->
        length (filter (fun t => str_eqb (name t) n) list_tools) = 1)
  /\ (forall n, In n tool_names <->
        ~ (forall arguments,
             dispatch network notion n arguments
             = raise (ValueError (lit "Unknown tool: " ++ n))))
  /\ (forall getenv1 getenv2 tools1 tools2,
        published_tools (main getenv1) = Some tools1 ->
        published_tools (main getenv2) = Some tools2 ->
        tools1 = list_tools /\ tools2 = tools1).
Proof.
  split; [reflexivity|]. split; [|split].
  - intros n H. unfold declared_names in H. simpl in H.
    repeat (destruct H as [<- | H]); try contradiction; reflexivity.
  - intros n. split.
    + intros Hin Hall. apply (dispatch_known_on_empty Hin). apply Hall.
    + intros Hnot. destruct (in_dec str_eq_dec n tool_names) as [Hin|Hout];
        [exact Hin|].
      exfalso. apply Hnot. intros arguments. now apply dispatch_unknown.
  - intros getenv1 getenv2 tools1 tools2 H1 H2.
    destruct (main getenv1), (main getenv2); simpl in *; try discriminate.
    injection H1 as <-. injection H2 as <-. auto.
Qed.

Lemma dispatch_headers name arguments rq :
  In rq (fst (dispatch network notion name arguments)) ->
  rq_headers rq = headers notion.
Proof.
  destruct (dispatch_shape name arguments)
    as [[e ->] | (method & url & json & ->)]; simpl.
  - contradiction.
  - intros [<- | []]. reflexivity.
Qed.


(** C8: when an invocation has issued its request and the answer is a
    success whose body, a text of Unicode scalar values, decodes to [body],
    then, provided [float.__repr__] round-trips on the floats of [body] (as
    CPython guarantees), the text of the Result is [dumps body] and decoding
    it gives [body] again: same values, same keys in the same order. *)
Theorem result_text_roundtrip name arguments rq r body :
  fst (call_tool network notion name arguments) = [rq] ->
  network rq = Responded r ->
  is_success r = true ->
  scalar_text (text r) = true ->
  loads (text r) = Some body ->
  floats_roundtrip body = true ->
  snd (call_tool network notion name arguments)
  = [text_content (dumps body)]
  /\ loads (dumps body) = Some body.
Proof.
  intros Hsent Hr Hs Hscalar Hbody Hfloats. split.
  - rewrite fst_call_tool in Hsent. unfold call_tool.
    destruct (dispatch_shape name arguments)
      as [[e He] | (method & url & json & He)]; rewrite He in Hsent |- *.
    + discriminate.
    + injection Hsent as <-. unfold settle. rewrite Hr, Hs, Hbody.
      reflexivity.
  - apply loads_dumps; [|exact Hfloats].
    exact (loads_wellformed (text r) Hscalar Hbody).
Qed.

End Properties.

(** C9: without a credential ([NOTION_TOKEN] unset or empty) [main] exits
    with status 1 after writing a line to the error stream, and publishes no
    catalog and accepts no invocation; with a credential it serves with the
    client built from it, and every request of every invocation carries the
    bearer header made of the credential, the API version and the JSON
    content type. *)
Theorem startup_credential {RT : Runtime} (network : request -> http_outcome)
    (getenv : str -> option str) :
  ((getenv (lit "NOTION_TOKEN") = None
    \/ getenv (lit "NOTION_TOKEN") = Some []) ->
   main getenv
   = Exited 1 (lit "Error: NOTION_TOKEN environment variable not set"
                 ++ [10%N])
   /\ published_tools (main getenv) = None
   /\ forall name arguments,
        invoke network (main getenv) name arguments = None)
  /\ (forall token,
        getenv (lit "NOTION_TOKEN") = Some token -> token <> [] ->
        main getenv = Serving (NotionMCPServer_init token)
        /\ forall name arguments sent results rq,
             invoke network (main getenv) name arguments
             = Some (sent, results) ->
             In rq sent -> rq_headers rq = credential_headers token).
Proof.
  split.
  - intros [H | H]; unfold main; rewrite H; simpl; auto.
  - intros token H Hne. unfold main. rewrite H.
    destruct token as [|c token]; [contradiction|]. simpl str_empty. cbv iota.
    split; [reflexivity|].
    intros name arguments sent results rq Hinv Hin.
    simpl in Hinv. injection Hinv as Hcall.
    assert (Hs : sent = fst (call_tool network
                               (NotionMCPServer_init (c :: token))
                               name arguments)) by now rewrite Hcall.
    rewrite fst_call_tool in Hs. subst sent.
    apply dispatch_headers in Hin. exact Hin.
Qed.

(** ** The theorems at concrete invocations *)

Definition demo_client : NotionMCPServer := NotionMCPServer_init (lit "secret").

Lemma unknown_tool_failure_witness :
  ~ In (lit "not_a_real_tool") tool_names
  /\ call_tool timing_out demo_client (lit "not_a_real_tool") []
     = ([], [text_content
               (dumps (PDict [(lit "error",
                               PStr (lit "Unknown tool: not_a_real_tool"));
                              (lit "type", PStr (lit "ValueError"))]))]).
Proof.
  assert (H : ~ In (lit "not_a_real_tool") tool_names).
  { unfold tool_names. simpl. intros H.
    repeat (destruct H as [H | H]; [discriminate H|]). exact H. }
  split; [exact H|].
  exact (proj2 (@unknown_tool_failure sample_runtime timing_out demo_client
                  (lit "not_a_real_tool") [] H)).
Defined.

Lemma missing_argument_failure_witness :
  call_tool timing_out demo_client (lit "get_page") []
  = ([], [text_content
            (dumps (PDict [(lit "error", PStr (lit "'page_id'"));
                           (lit "type", PStr (lit "KeyError"))]))]).
Proof.
  refine (@missing_argument_failure sample_runtime timing_out demo_client
            (nth 1 list_tools (Build_Tool [] [] PNone)) [] (lit "page_id")
            _ _).
  - simpl. right. left. reflexivity.
  - reflexivity.
Defined.

Lemma create_page_payload_witness :
  exists body,
    fst (call_tool timing_out demo_client (lit "create_page")
           [(lit "parent_id", PStr (lit "P")); (lit "title", PStr (lit "T"));
            (lit "properties",
             PDict [(lit "Status", PDict [(lit "select", PNone)])])])
    = [request_of demo_client POST (NOTION_API_BASE ++ lit "/pages")
         (Some body)]
    /\ path_get body [Key (lit "parent"); Key (lit "page_id")]
       = Some (PStr (lit "P"))
    /\ path_get body [Key (lit "properties"); Key (lit "title");
                      Key (lit "title"); Index 0; Key (lit "text");
                      Key (lit "content")] = Some (PStr (lit "T"))
    /\ path_get body [Key (lit "properties"); Key (lit "Status")]
       = Some (PDict [(lit "select", PNone)]).
Proof.
  destruct (@create_page_payload sample_runtime timing_out demo_client
              [(lit "parent_id", PStr (lit "P")); (lit "title", PStr (lit "T"));
               (lit "properties",
                PDict [(lit "Status", PDict [(lit "select", PNone)])])]
              (PStr (lit "P")) (PStr (lit "T"))
              [(lit "Status", PDict [(lit "select", PNone)])]
              eq_refl eq_refl (or_introl eq_refl)
              (NoDup_cons _ (fun H : In _ [] => H) (NoDup_nil _)))
    as (body & Hsent & Hparent & Htitle & Hmerged & _).
  exists body. repeat split.
  - exact Hsent.
  - exact Hparent.
  - apply Htitle. reflexivity.
  - apply Hmerged. reflexivity.
Defined.

Lemma query_database_optional_arguments_witness :
  exists payload,
    fst (call_tool timing_out demo_client (lit "query_database")
           [(lit "database_id", PStr (lit "db")); (lit "filter", PDict []);
            (lit "sorts",
             PList [PDict [(lit "property", PStr (lit "Name"));
                           (lit "direction", PStr (lit "ascending"))]])])
    = [request_of demo_client POST
         (NOTION_API_BASE ++ lit "/databases/db/query")
         (Some (PDict payload))]
    /\ has_key payload (lit "filter") = false
    /\ has_key payload (lit "sorts") = true.
Proof.
  destruct (@query_database_optional_arguments sample_runtime timing_out
              demo_client
              [(lit "database_id", PStr (lit "db")); (lit "filter", PDict []);
               (lit "sorts",
                PList [PDict [(lit "property", PStr (lit "Name"));
                              (lit "direction", PStr (lit "ascending"))]])]
              (PStr (lit "db")) eq_refl)
    as [(payload & Hsent & Hfilter & Hsorts & _) _].
  exists payload. repeat split; assumption.
Defined.

(** A [filter] that is a number and a [sorts] that is a string, neither a
    mapping nor a sequence, are both posted in the body. *)
Lemma query_database_forwards_scalars :
  fst (call_tool timing_out demo_client (lit "query_database")
         [(lit "database_id", PStr (lit "db")); (lit "filter", PInt 1);
          (lit "sorts", PStr (lit "Name"))])
  = [request_of demo_client POST
       (NOTION_API_BASE ++ lit "/databases/db/query")
       (Some (PDict [(lit "filter", PInt 1);
                     (lit "sorts", PStr (lit "Name"))]))]
  /\ (forall m, PInt 1 <> PDict m)
  /\ (forall l, PStr (lit "Name") <> PList l).
Proof. repeat split; try reflexivity; intros; discriminate. Qed.

Lemma upstream_failure_results_witness :
  snd (call_tool (answering not_found) demo_client (lit "get_page")
         [(lit "page_id", PStr (lit "abc"))])
  = [text_content
       (dumps (PDict [(lit "error", PStr (status_message not_found));
                      (lit "type", PStr (lit "HTTPStatusError"))]))]
  /\ snd (call_tool timing_out demo_client (lit "get_page")
            [(lit "page_id", PStr (lit "abc"))])
     = [text_content
          (dumps (PDict [(lit "error", PStr []);
                         (lit "type", PStr (lit "ReadTimeout"))]))].
Proof.
  split.
  - exact (proj1 (proj2 (proj1
      (@upstream_failure_results sample_runtime (answering not_found)
         demo_client (lit "get_page") [(lit "page_id", PStr (lit "abc"))]
         (request_of demo_client GET (NOTION_API_BASE ++ lit "/pages/abc") None)
         eq_refl)
      not_found eq_refl eq_refl))).
  - exact (proj1 (proj2
      (@upstream_failure_results sample_runtime timing_out
         demo_client (lit "get_page") [(lit "page_id", PStr (lit "abc"))]
         (request_of demo_client GET (NOTION_API_BASE ++ lit "/pages/abc") None)
         eq_refl)
      ReadTimeout [] eq_refl)).
Defined.

(** The message of the failure Result for a 404 answer contains neither the
    body of the answer nor the error code the body names; the serialised
    Result does not contain the code either. *)
Lemma status_failure_message_omits_body :
  snd (call_tool (answering not_found) demo_client (lit "get_page")
         [(lit "page_id", PStr (lit "abc"))])
  = [text_content
       (dumps (PDict [(lit "error", PStr (status_message not_found));
                      (lit "type", PStr (lit "HTTPStatusError"))]))]
  /\ contains (text not_found) (status_message not_found) = false
  /\ contains (lit "object_not_found") (status_message not_found) = false
  /\ contains (lit "object_not_found")
       (dumps (PDict [(lit "error", PStr (status_message not_found));
                      (lit "type", PStr (lit "HTTPStatusError"))])) = false.
Proof. repeat split; vm_compute; reflexivity. Qed.

Lemma result_text_roundtrip_witness :
  snd (call_tool (answering found) demo_client (lit "get_page")
         [(lit "page_id", PStr (lit "abc"))])
  = [text_content (dumps found_body)]
  /\ loads (dumps found_body) = Some found_body.
Proof.
  exact (@result_text_roundtrip sample_runtime (answering found) demo_client
           (lit "get_page") [(lit "page_id", PStr (lit "abc"))]
           (request_of demo_client GET (NOTION_API_BASE ++ lit "/pages/abc")
              None)
           found found_body
           eq_refl eq_refl eq_refl eq_refl eq_refl eq_refl).
Defined.

(** * Further properties of the handlers *)

Section Coverage.
Context {RT : Runtime}.
Variable network : request -> http_outcome.
Variable notion : NotionMCPServer.
Local Open Scope N_scope.

(** X1: an invocation issues at most one request: there is no retry and
    no second call, whatever the outcome of the first. *)
Theorem at_most_one_request name arguments :
  (length (fst (call_tool network notion name arguments)) <= 1)%nat.
Proof.
  rewrite fst_call_tool.
  destruct (dispatch_shape network notion name arguments)
    as [[e ->] | (method & url & json & ->)]; simpl; lia.
Qed.

Lemma dispatch_get_page arguments page_id :
  dict_lookup arguments (lit "page_id") = Some page_id ->
  dispatch network notion (lit "get_page") arguments
  = get_page network notion page_id.
Proof.
  intros H. unfold dispatch.
  change (str_eqb (lit "get_page") (lit "search_notion")) with false.
  change (str_eqb (lit "get_page") (lit "get_page")) with true.
  cbv iota. unfold subscript. now rewrite H, bind_ret.
Qed.

(** X2: [get_page] and [get_block_children] issue a GET without a body on
    the page and on the children of the block; the identifier is not
    checked, so a null [page_id] is requested as the page [None]. *)
Theorem read_requests arguments id :
  (dict_lookup arguments (lit "page_id") = Some id ->
   fst (call_tool network notion (lit "get_page") arguments)
   = [request_of notion GET
        (NOTION_API_BASE ++ lit "/pages/" ++ format_value id) None])
  /\ (dict_lookup arguments (lit "block_id") = Some id ->
      fst (call_tool network notion (lit "get_block_children") arguments)
      = [request_of notion GET
           (NOTION_API_BASE ++ lit "/blocks/" ++ format_value id
              ++ lit "/children") None])
  /\ (dict_lookup arguments (lit "page_id") = Some PNone ->
      fst (call_tool network notion (lit "get_page") arguments)
      = [request_of notion GET (NOTION_API_BASE ++ lit "/pages/None") None]).
Proof.
  split; [|split].
  - intros H. rewrite fst_call_tool, (dispatch_get_page _ H).
    unfold get_page. now rewrite exchange.
  - intros H. rewrite fst_call_tool. unfold dispatch.
    change (str_eqb (lit "get_block_children") (lit "search_notion")) with false.
    change (str_eqb (lit "get_block_children") (lit "get_page")) with false.
    change (str_eqb (lit "get_block_children") (lit "create_page")) with false.
    change (str_eqb (lit "get_block_children") (lit "update_page")) with false.
    change (str_eqb (lit "get_block_children") (lit "query_database")) with false.
    change (str_eqb (lit "get_block_children") (lit "get_block_children")) with true.
    cbv iota. unfold subscript. rewrite H, bind_ret.
    unfold get_block_children. now rewrite exchange.
  - intros H. rewrite fst_call_tool, (dispatch_get_page _ H).
    unfold get_page. now rewrite exchange.
Qed.

(** X3: [update_page] and [append_blocks] issue a PATCH whose body holds the
    argument under the key [properties], respectively [children]. *)
Theorem write_requests arguments id value :
  (dict_lookup arguments (lit "page_id") = Some id ->
   dict_lookup arguments (lit "properties") = Some value ->
   fst (call_tool network notion (lit "update_page") arguments)
   = [request_of notion PATCH
        (NOTION_API_BASE ++ lit "/pages/" ++ format_value id)
        (Some (PDict [(lit "properties", value)]))])
  /\ (dict_lookup arguments (lit "block_id") = Some id ->
      dict_lookup arguments (lit "blocks") = Some value ->
      fst (call_tool network notion (lit "append_blocks") arguments)
      = [request_of notion PATCH
           (NOTION_API_BASE ++ lit "/blocks/" ++ format_value id
              ++ lit "/children")
           (Some (PDict [(lit "children", value)]))]).
Proof.
  split; intros Hid Hv; rewrite fst_call_tool; unfold dispatch.
  - change (str_eqb (lit "update_page") (lit "search_notion")) with false.
    change (str_eqb (lit "update_page") (lit "get_page")) with false.
    change (str_eqb (lit "update_page") (lit "create_page")) with false.
    change (str_eqb (lit "update_page") (lit "update_page")) with true.
    cbv iota. unfold subscript. rewrite Hid, Hv, !bind_ret.
    unfold update_page. cbv zeta. now rewrite exchange.
  - change (str_eqb (lit "append_blocks") (lit "search_notion")) with false.
    change (str_eqb (lit "append_blocks") (lit "get_page")) with false.
    change (str_eqb (lit "append_blocks") (lit "create_page")) with false.
    change (str_eqb (lit "append_blocks") (lit "update_page")) with false.
    change (str_eqb (lit "append_blocks") (lit "query_database")) with false.
    change (str_eqb (lit "append_blocks") (lit "get_block_children")) with false.
    change (str_eqb (lit "append_blocks") (lit "append_blocks")) with true.
    cbv iota. unfold subscript. rewrite Hid, Hv, !bind_ret.
    unfold append_block_children. cbv zeta. now rewrite exchange.
Qed.

(** X4: the body of a search has a [query] exactly when the query is
    truthy and a [filter] on [object] exactly when [filter_type] is truthy,
    and no other key. *)
Theorem search_payload arguments :
  let query := dict_get_default arguments (lit "query") (PStr []) in
  let filter_type := dict_get arguments (lit "filter_type") in
  exists payload,
    fst (call_tool network notion (lit "search_notion") arguments)
    = [request_of notion POST (NOTION_API_BASE ++ lit "/search")
         (Some (PDict payload))]
    /\ dict_lookup payload (lit "query")
       = (if truthy query then Some query else None)
    /\ dict_lookup payload (lit "filter")
       = (if truthy filter_type then
            Some (PDict [(lit "property", PStr (lit "object"));
                         (lit "value", filter_type)])
          else None)
    /\ (forall k, has_key payload k = true ->
        k = lit "query" \/ k = lit "filter").
Proof.
  intros query filter_type. eexists. split.
  - rewrite fst_call_tool. unfold dispatch.
    change (str_eqb (lit "search_notion") (lit "search_notion")) with true.
    cbv iota. rewrite search_unfold. reflexivity.
  - fold query filter_type.
    destruct (truthy query), (truthy filter_type); cbn [dict_set];
      try change (str_eqb (lit "query") (lit "filter")) with false;
      cbv iota; repeat split; try reflexivity;
      intros k; unfold has_key; cbn [dict_lookup dict_set];
      try discriminate;
      repeat match goal with
      | |- context [str_eqb ?a k] =>
          let E := fresh "E" in
          destruct (str_eqb a k) eqn:E;
          [apply str_eqb_eq in E; subst; intros _; auto|]
      end; try discriminate.
Qed.

(** X5: when [properties] of [create_page] is a number, [True] or a
    non-empty string, [dict.update] raises; the handler returns a failure
    Result of type [TypeError] or [ValueError] and issues no request. *)
Theorem create_page_rejects_scalar_properties arguments P T :
  dict_lookup arguments (lit "parent_id") = Some P ->
  dict_lookup arguments (lit "title") = Some T ->
  scalar_value (dict_get arguments (lit "properties")) = true ->
  truthy (dict_get arguments (lit "properties")) = true ->
  exists e,
    call_tool network notion (lit "create_page") arguments
    = ([], [text_content (dumps (failure e))])
    /\ (type_name e = lit "TypeError" \/ type_name e = lit "ValueError").
Proof.
  intros HP HT Hscalar Htruthy.
  assert (H : exists e,
             dispatch network notion (lit "create_page") arguments = raise e
             /\ (type_name e = lit "TypeError"
                 \/ type_name e = lit "ValueError")).
  { unfold dispatch.
    change (str_eqb (lit "create_page") (lit "search_notion")) with false.
    change (str_eqb (lit "create_page") (lit "get_page")) with false.
    change (str_eqb (lit "create_page") (lit "create_page")) with true.
    cbv iota. unfold subscript. rewrite HP, HT, !bind_ret.
    unfold create_page. cbv zeta. rewrite Htruthy.
    destruct (dict_get arguments (lit "properties")); try discriminate;
      unfold properties_update; eexists; split; try reflexivity; auto. }
  destruct H as (e & He & Hty). exists e. split; [|exact Hty].
  now apply call_tool_raised.
Qed.

(** X7: the text of a failure Result decodes to the object with the two
    keys [error] and [type] it was made of, when the message and the type
    name are strings whose surrogates are not paired. *)
Theorem failure_result_decodes e :
  valid_str (exn_str e) = true ->
  valid_str (type_name e) = true ->
  loads (dumps (failure e)) = Some (failure e).
Proof.
  intros Hm Ht. apply loads_dumps; [|reflexivity].
  unfold failure. cbn [wellformed map fst snd forallb].
  rewrite Hm, Ht. reflexivity.
Qed.

Lemma search_default_query (arguments : dict) filter_type :
  search network notion
    (dict_get_default arguments (lit "query") (PStr [])) filter_type
  = search network notion (dict_get arguments (lit "query")) filter_type.
Proof.
  unfold dict_get, dict_get_default.
  destruct (dict_lookup arguments (lit "query")); [reflexivity|].
  rewrite !search_unfold. reflexivity.
Qed.

(** X8: the handler reads no argument that the schema of the tool does not
    declare: two argument mappings that agree on the required keys, and on
    every declared key up to an absent key being [None], give the same
    requests and the same Result. *)
Theorem only_declared_arguments_are_read t a1 a2 :
  In t list_tools ->
  (forall k, In k (required_keys t) -> dict_lookup a1 k = dict_lookup a2 k) ->
  (forall k, In k (schema_keys t) -> dict_get a1 k = dict_get a2 k) ->
  call_tool network notion (name t) a1 = call_tool network notion (name t) a2.
Proof.
  intros Ht Hreq Hopt.
  assert (H : dispatch network notion (name t) a1
              = dispatch network notion (name t) a2);
    [|unfold call_tool; now rewrite H].
  unfold list_tools in Ht. simpl in Ht.
  repeat (destruct Ht as [<- | Ht]); try contradiction;
    unfold required_keys in Hreq; unfold schema_keys in Hopt;
    cbn [inputSchema name dict_lookup] in Hreq, Hopt |- *;
    unfold dispatch; cbn [name str_eqb lit];
    unfold subscript.
  - rewrite !search_default_query.
    rewrite (Hopt (lit "query")) by (simpl; auto).
    rewrite (Hopt (lit "filter_type")) by (simpl; auto). reflexivity.
  - now rewrite (Hreq (lit "page_id")) by (simpl; auto).
  - rewrite (Hreq (lit "parent_id")) by (simpl; auto).
    rewrite (Hreq (lit "title")) by (simpl; auto).
    rewrite (Hopt (lit "properties")) by (simpl; auto). reflexivity.
  - rewrite (Hreq (lit "page_id")) by (simpl; auto).
    now rewrite (Hreq (lit "properties")) by (simpl; auto).
  - rewrite (Hreq (lit "database_id")) by (simpl; auto).
    rewrite (Hopt (lit "filter")) by (simpl; auto).
    rewrite (Hopt (lit "sorts")) by (simpl; auto). reflexivity.
  - now rewrite (Hreq (lit "block_id")) by (simpl; auto).
  - rewrite (Hreq (lit "block_id")) by (simpl; auto).
    now rewrite (Hreq (lit "blocks")) by (simpl; auto).
Qed.

(** X10: a falsy [properties] argument of [create_page], of whatever type,
    is ignored: the body holds the generated title only. *)
Theorem create_page_ignores_falsy_properties arguments P T :
  dict_lookup arguments (lit "parent_id") = Some P ->
  dict_lookup arguments (lit "title") = Some T ->
  truthy (dict_get arguments (lit "properties")) = false ->
  fst (call_tool network notion (lit "create_page") arguments)
  = [request_of notion POST (NOTION_API_BASE ++ lit "/pages")
       (Some (PDict [(lit "parent", PDict [(lit "page_id", P)]);
                     (lit "properties",
                      PDict (generated_properties T))]))].
Proof.
  intros HP HT Hfalsy. rewrite fst_call_tool. unfold dispatch.
  change (str_eqb (lit "create_page") (lit "search_notion")) with false.
  change (str_eqb (lit "create_page") (lit "get_page")) with false.
  change (str_eqb (lit "create_page") (lit "create_page")) with true.
  cbv iota. unfold subscript. rewrite HP, HT, !bind_ret.
  unfold create_page. cbv zeta. rewrite Hfalsy, bind_ret, exchange.
  reflexivity.
Qed.

(** X11: [query_database] forwards [filter] and [sorts] whenever they are
    truthy, whatever their type, and omits them otherwise. *)
Theorem query_database_payload arguments database_id :
  dict_lookup arguments (lit "database_id") = Some database_id ->
  let filter_obj := dict_get arguments (lit "filter") in
  let sorts := dict_get arguments (lit "sorts") in
  fst (call_tool network notion (lit "query_database") arguments)
  = [request_of notion POST
       (NOTION_API_BASE ++ lit "/databases/" ++ format_value database_id
          ++ lit "/query")
       (Some (PDict ((if truthy filter_obj then [(lit "filter", filter_obj)]
                      else [])
                     ++ (if truthy sorts then [(lit "sorts", sorts)]
                         else []))))].
Proof.
  intros Hid filter_obj sorts. rewrite fst_call_tool. unfold dispatch.
  change (str_eqb (lit "query_database") (lit "search_notion")) with false.
  change (str_eqb (lit "query_database") (lit "get_page")) with false.
  change (str_eqb (lit "query_database") (lit "create_page")) with false.
  change (str_eqb (lit "query_database") (lit "update_page")) with false.
  change (str_eqb (lit "query_database") (lit "query_database")) with true.
  cbv iota. unfold subscript. rewrite Hid, bind_ret.
  rewrite query_database_unfold. reflexivity.
Qed.

Lemma ascii_text_app a b :
  ascii_text (a ++ b) = ascii_text a && ascii_text b.
Proof. apply forallb_app. Qed.

Lemma hex_digit_ascii d : d < 16 -> is_ascii (hex_digit d) = true.
Proof.
  intros H. unfold is_ascii, hex_digit. apply N.ltb_lt.
  destruct (d <? 10); lia.
Qed.

Lemma u_escape_ascii n : ascii_text (u_escape n) = true.
Proof.
  unfold u_escape, ascii_text. cbn [forallb].
  rewrite !hex_digit_ascii by (apply N.mod_lt; discriminate). reflexivity.
Qed.

Lemma encode_char_ascii c : ascii_text (encode_char c) = true.
Proof.
  unfold encode_char. destruct (ESCAPE_ASCII c) eqn:E.
  - unfold replace, ESCAPE_DCT.
    repeat match goal with
    | |- context [if ?b then Some _ else _] => destruct b; [reflexivity|]
    end.
    destruct (c <? 65536); [apply u_escape_ascii|].
    rewrite ascii_text_app, !u_escape_ascii. reflexivity.
  - unfold ESCAPE_ASCII in E.
    apply orb_false_iff in E as [_ E]. apply negb_false_iff in E.
    apply andb_true_iff in E as [_ E]. apply N.leb_le in E.
    unfold ascii_text, is_ascii. cbn [forallb]. rewrite andb_true_r.
    apply N.ltb_lt. lia.
Qed.

Lemma encode_basestring_ascii_ascii s :
  ascii_text (encode_basestring_ascii s) = true.
Proof.
  unfold encode_basestring_ascii.
  change (34 :: flat_map encode_char s ++ [34])
    with ([34] ++ flat_map encode_char s ++ [34]).
  rewrite !ascii_text_app.
  assert (H : ascii_text (flat_map encode_char s) = true).
  { induction s as [|c s IH]; [reflexivity|].
    cbn [flat_map]. now rewrite ascii_text_app, encode_char_ascii, IH. }
  now rewrite H.
Qed.

Lemma intstr_ascii z : ascii_text (intstr z) = true.
Proof.
  assert (H : forall u, ascii_text (uint_chars u) = true).
  { induction u; cbn [uint_chars]; try reflexivity; exact IHu. }
  destruct z; [reflexivity|apply H|].
  unfold intstr. change (ascii_text ([45] ++ uint_chars (Pos.to_uint p)) = true).
  now rewrite ascii_text_app, H.
Qed.

Lemma newline_indent_ascii level : ascii_text (newline_indent level) = true.
Proof.
  unfold newline_indent.
  change (ascii_text ([10] ++ concat (repeat (lit "  ") level)) = true).
  rewrite ascii_text_app.
  induction level as [|n IH]; [reflexivity|].
  cbn [repeat concat]. rewrite ascii_text_app. exact IH.
Qed.

Lemma item_separator_ascii level : ascii_text (item_separator level) = true.
Proof.
  unfold item_separator.
  change (ascii_text ([44] ++ newline_indent level) = true).
  now rewrite ascii_text_app, newline_indent_ascii.
Qed.

Lemma iterencode_ascii v : forall level,
  floats_ascii v = true -> ascii_text (iterencode v level) = true.
Proof.
  induction v as [| b | z | f | s | l IHl | d IHd] using pyval_nested_ind;
    intros level Hf; cbn [iterencode].
  - reflexivity.
  - destruct b; reflexivity.
  - apply intstr_ascii.
  - exact Hf.
  - apply encode_basestring_ascii_ascii.
  - unfold iterencode_list. destruct l as [|x xs]; [reflexivity|].
    rewrite !ascii_text_app, newline_indent_ascii.
    cbn [floats_ascii] in Hf.
    assert (H : forall (items : list pyval) buf,
              Forall (fun v => forall level, floats_ascii v = true ->
                        ascii_text (iterencode v level) = true) items ->
              forallb floats_ascii items = true ->
              ascii_text buf = true ->
              ascii_text (list_chunks (fun v => iterencode v (S level))
                            (item_separator (S level)) items buf) = true).
    { induction items as [|y ys IH]; intros buf Hall Hfl Hbuf;
        [reflexivity|].
      inversion Hall as [|? ? Hy Hys]; subst. cbn [forallb] in Hfl.
      apply andb_true_iff in Hfl as [Hfy Hfys].
      cbn [list_chunks]. rewrite !ascii_text_app, Hbuf, (Hy _ Hfy).
      apply IH; auto. apply item_separator_ascii. }
    rewrite H; auto.
    change (ascii_text ([91] ++ newline_indent (S level)) = true).
    now rewrite ascii_text_app, newline_indent_ascii.
  - unfold iterencode_dict. destruct d as [|kx d']; [reflexivity|].
    change (ascii_text
              ([123] ++ newline_indent (S level)
                 ++ dict_chunks (fun v => iterencode v (S level))
                      (item_separator (S level)) (kx :: d') true
                 ++ newline_indent level ++ [125]) = true).
    rewrite !ascii_text_app, !newline_indent_ascii.
    cbn [floats_ascii] in Hf.
    assert (H : forall (items : list (str * pyval)) first,
              Forall (fun kv => forall level, floats_ascii (snd kv) = true ->
                        ascii_text (iterencode (snd kv) level) = true) items ->
              forallb (fun kv => floats_ascii (snd kv)) items = true ->
              ascii_text (dict_chunks (fun v => iterencode v (S level))
                            (item_separator (S level)) items first) = true).
    { induction items as [|[k y] ys IH]; intros first Hall Hfl;
        [reflexivity|].
      inversion Hall as [|? ? Hy Hys]; subst. cbn [forallb snd] in Hfl, Hy.
      apply andb_true_iff in Hfl as [Hfy Hfys].
      cbn [dict_chunks]. rewrite !ascii_text_app.
      rewrite encode_basestring_ascii_ascii, (Hy _ Hfy), (IH false Hys Hfys).
      destruct first; [reflexivity|].
      now rewrite item_separator_ascii. }
    rewrite H; auto.
Qed.

Lemma floats_ascii_all v :
  (forall f, ascii_text (float_repr f) = true) -> floats_ascii v = true.
Proof.
  intros Hrepr.
  induction v as [| b | z | f | s | l IHl | d IHd] using pyval_nested_ind;
    cbn [floats_ascii]; try reflexivity.
  - destruct f as [s|[|]| |s m e]; cbn [floatstr];
      try reflexivity; apply Hrepr.
  - apply forallb_forall. rewrite Forall_forall in IHl. auto.
  - apply forallb_forall. rewrite Forall_forall in IHd. auto.
Qed.

(** X9: the text of every Result is ASCII, provided [float.__repr__] is. *)
Theorem result_text_is_ascii name arguments :
  (forall f, ascii_text (float_repr f) = true) ->
  exists t,
    snd (call_tool network notion name arguments) = [text_content t]
    /\ ascii_text t = true.
Proof.
  intros Hrepr. unfold call_tool.
  destruct (dispatch network notion name arguments) as [sent [e | v]];
    eexists; (split; [reflexivity|]);
    apply iterencode_ascii; now apply floats_ascii_all.
Qed.

End Coverage.

(** ** The further properties at concrete invocations *)

Lemma create_page_rejects_scalar_properties_witness :
  exists e,
    call_tool timing_out demo_client (lit "create_page")
      [(lit "parent_id", PStr (lit "P")); (lit "title", PStr (lit "T"));
       (lit "properties", PInt 7)]
    = ([], [text_content (dumps (failure e))])
    /\ (type_name e = lit "TypeError" \/ type_name e = lit "ValueError").
Proof.
  exact (@create_page_rejects_scalar_properties sample_runtime timing_out
           demo_client
           [(lit "parent_id", PStr (lit "P")); (lit "title", PStr (lit "T"));
            (lit "properties", PInt 7)]
           (PStr (lit "P")) (PStr (lit "T"))
           eq_refl eq_refl eq_refl eq_refl).
Defined.

Lemma failure_result_decodes_witness :
  loads (dumps (failure (KeyError (lit "page_id"))))
  = Some (PDict [(lit "error", PStr (lit "'page_id'"));
                 (lit "type", PStr (lit "KeyError"))]).
Proof.
  exact (@failure_result_decodes sample_runtime (KeyError (lit "page_id"))
           eq_refl eq_refl).
Defined.

Lemma only_declared_arguments_are_read_witness :
  call_tool (answering found) demo_client (lit "get_page")
    [(lit "page_id", PStr (lit "abc"))]
  = call_tool (answering found) demo_client (lit "get_page")
      [(lit "verbose", PBool true); (lit "page_id", PStr (lit "abc"));
       (lit "query", PNone)].
Proof.
  refine (@only_declared_arguments_are_read sample_runtime (answering found)
            demo_client (nth 1 list_tools (Build_Tool [] [] PNone))
            [(lit "page_id", PStr (lit "abc"))]
            [(lit "verbose", PBool true); (lit "page_id", PStr (lit "abc"));
             (lit "query", PNone)] _ _ _).
  - simpl. right. left. reflexivity.
  - intros k [<- | []]. reflexivity.
  - intros k [<- | []]. reflexivity.
Defined.

Lemma create_page_ignores_falsy_properties_witness :
  fst (call_tool timing_out demo_client (lit "create_page")
         [(lit "parent_id", PStr (lit "P")); (lit "title", PStr (lit "T"));
          (lit "properties", PInt 0)])
  = [request_of demo_client POST (NOTION_API_BASE ++ lit "/pages")
       (Some (PDict [(lit "parent", PDict [(lit "page_id", PStr (lit "P"))]);
                     (lit "properties",
                      PDict (generated_properties (PStr (lit "T"))))]))].
Proof.
  exact (@create_page_ignores_falsy_properties sample_runtime timing_out
           demo_client
           [(lit "parent_id", PStr (lit "P")); (lit "title", PStr (lit "T"));
            (lit "properties", PInt 0)]
           (PStr (lit "P")) (PStr (lit "T")) eq_refl eq_refl eq_refl).
Defined.

Lemma query_database_payload_witness :
  fst (call_tool timing_out demo_client (lit "query_database")
         [(lit "database_id", PStr (lit "db")); (lit "filter", PStr (lit "x"));
          (lit "sorts", PList [])])
  = [request_of demo_client POST
       (NOTION_API_BASE ++ lit "/databases/db/query")
       (Some (PDict [(lit "filter", PStr (lit "x"))]))].
Proof.
  exact (@query_database_payload sample_runtime timing_out demo_client
           [(lit "database_id", PStr (lit "db"));
            (lit "filter", PStr (lit "x")); (lit "sorts", PList [])]
           (PStr (lit "db")) eq_refl).
Defined.

Lemma sample_float_repr_ascii f : ascii_text (sample_float_repr f) = true.
Proof.
  destruct f as [[|]| | |[|] [p|p|] [|e|[e|e|]]]; try reflexivity;
    try (destruct p as [p|p|]; reflexivity).
Qed.

Lemma result_text_is_ascii_witness :
  exists t,
    snd (call_tool (answering found) demo_client (lit "get_page")
           [(lit "page_id", PStr (lit "abc"))]) = [text_content t]
    /\ ascii_text t = true.
Proof.
  exact (@result_text_is_ascii sample_runtime (answering found) demo_client
           (lit "get_page") [(lit "page_id", PStr (lit "abc"))]
           sample_float_repr_ascii).
Defined.
